(** * Compliance risk engine: the data generation script

    A shallow embedding of [generate_data.py] and the properties of its
    pipeline: asset generation, access-log generation, the metadata join,
    anomaly injection and policy-violation labelling.

    The script is a straight-line program over two pandas tables and one
    seeded random generator.  Tables are lists of records (the row label of
    a [RangeIndex] is the list position), the generator is threaded through
    a small state-and-exception monad, and every property is proved for an
    arbitrary stream of raw draws, hence for the stream seed 42 produces. *)

From Stdlib Require Import ZArith String Ascii Decimal DecimalString DecimalNat.
From stdpp Require Import base list strings.

Local Open Scope string_scope.
Local Open Scope Z_scope.

(** ** Exceptions and the random generator *)

Inductive exn :=
| ValueError (msg : string)
| KeyError (label : nat).

Inductive result (A : Type) :=
| Ok (a : A)
| Raise (e : exn).
Arguments Ok {A} a.
Arguments Raise {A} e.

(** The state of [np.random]: the raw draws still to come and how many were
    consumed.  [stream] is arbitrary: nothing below depends on which
    generator fills it. *)
Record rng := MkRng { stream : nat → Z; cursor : nat }.

Definition Rand (A : Type) : Type := rng → result (A * rng).

Definition ret {A} (a : A) : Rand A := λ g, Ok (a, g).

Definition bind {A B} (c : Rand A) (k : A → Rand B) : Rand B :=
  λ g, match c g with
       | Ok (a, g') => k a g'
       | Raise e => Raise e
       end.

Definition raise {A} (e : exn) : Rand A := λ _, Raise e.

Notation "x <~ c ;; k" := (bind c (λ x, k))
  (at level 100, c at next level, right associativity).

Definition next_raw : Rand Z :=
  λ g, Ok (stream g (cursor g), MkRng (stream g) (S (cursor g))).

(** The bounded draw under [randint], [choice] and [shuffle]: a raw draw
    reduced to [0, n). *)
Definition random_below (n : Z) : Rand Z :=
  r <~ next_raw ;; ret (r mod n).

(** [np.random.randint(low, high)]: an integer of [low, high).  The bounds
    are checked against int64 first: [low] at least -2^63 and [high] at
    most 2^63. *)
Definition randint (low high : Z) : Rand Z :=
  if decide (low < -9223372036854775808)
  then raise (ValueError "low is out of bounds for int64")
  else if decide (9223372036854775808 < high)
  then raise (ValueError "high is out of bounds for int64")
  else if decide (low < high)
  then k <~ random_below (high - low) ;; ret (low + k)
  else raise (ValueError "low >= high").

(** [np.random.choice(a)]: uniform, an index below [len(a)].  Only the
    exception class is modelled; the message is a label of this model. *)
Definition choice {A} (a : list A) : Rand A :=
  match a with
  | [] => raise (ValueError "a must be non-empty")
  | x :: _ => i <~ random_below (Z.of_nat (length a)) ;; ret (nth (Z.to_nat i) a x)
  end.

(** [cdf.searchsorted(u, side='right')] over the running sum of [p]. *)
Fixpoint searchsorted_right (p : list Z) (acc u : Z) : nat :=
  match p with
  | [] => 0%nat
  | w :: p' => if decide (acc + w ≤ u) then S (searchsorted_right p' (acc + w) u)
               else 0%nat
  end.

Definition sum_list (p : list Z) : Z := foldr Z.add 0 p.

(** [np.random.choice(a, p=p)]: probabilities are given in percent, the
    uniform sample is a raw draw reduced to [0, 100). *)
Definition choice_p {A} (a : list A) (p : list Z) : Rand A :=
  match a with
  | [] => raise (ValueError "a must be non-empty")
  | x :: _ =>
      if decide (length a = length p ∧ Forall (λ w, 0 ≤ w) p ∧ sum_list p = 100)
      then u <~ randint 0 100 ;; ret (nth (searchsorted_right p 0 u) a x)
      else raise (ValueError "probabilities do not sum to 1")
  end.

(** A draw with [size=n]: [n] draws in sequence. *)
Fixpoint replicateM {A} (n : nat) (c : Rand A) : Rand (list A) :=
  match n with
  | O => ret []
  | S n' => x <~ c ;; xs <~ replicateM n' c ;; ret (x :: xs)
  end.

(** ** Formatting: [f'{i:0Wd}'] *)

Definition digits (n : nat) : string := NilEmpty.string_of_uint (Nat.to_uint n).

Fixpoint zeros (k : nat) : string :=
  match k with
  | O => ""
  | S k' => String "0" (zeros k')
  end.

Definition zfill (width : nat) (s : string) : string :=
  zeros (width - String.length s) +:+ s.

Definition format_d (width : nat) (i : Z) : string :=
  if decide (i < 0)
  then "-" +:+ zfill (width - 1) (digits (Z.to_nat (- i)))
  else zfill width (digits (Z.to_nat i)).

(** [range(a, b)] *)
Definition range (a b : Z) : list Z :=
  map (λ k, a + Z.of_nat k) (seq 0 (Z.to_nat (b - a))).

(** ** The tables *)

Inductive encryption := Encrypted | Plain.
Inductive access := Read | Write.
Inductive region := US | EU | AS.

Global Instance encryption_eq_dec : EqDecision encryption.
Proof. solve_decision. Defined.
Global Instance access_eq_dec : EqDecision access.
Proof. solve_decision. Defined.
Global Instance region_eq_dec : EqDecision region.
Proof. solve_decision. Defined.

(** A row of [df_metadata]. *)
Record asset := MkAsset {
  meta_Data_Asset_ID : string;
  meta_PHI_Flag : bool;
  meta_Encryption_Status : encryption
}.

(** A timestamp is the number of minutes since [start_date], midnight of
    2024-01-01; the script never produces seconds or fractions. *)
Definition timestamp := Z.

Definition start_date : timestamp := 0.

Definition timedelta (days hours minutes : Z) : Z :=
  days * 1440 + hours * 60 + minutes.

(** The day count since [start_date] stands for the calendar date. *)
Definition ts_date (t : timestamp) : Z := t / 1440.
Definition ts_hour (t : timestamp) : Z := (t / 60) mod 24.
Definition ts_minute (t : timestamp) : Z := t mod 60.

(** [Timestamp.replace(hour=h, minute=m)] *)
Definition ts_replace (t : timestamp) (h m : Z) : timestamp :=
  ts_date t * 1440 + h * 60 + m.

(** A row of [df_access_logs] as the [DataFrame] constructor builds it. *)
Record raw_log := MkRaw {
  raw_Timestamp : timestamp;
  raw_User_ID : string;
  raw_Data_Asset_ID : string;
  raw_Access_Type : access;
  raw_IP_Location : region
}.

(** A row of [df_access_logs] after the merge.  The joined columns are
    missing ([None], pandas' NaN) where no asset matched, and
    [Policy_Violation] is missing until the labeller creates the column. *)
Record row := MkRow {
  Timestamp : timestamp;
  User_ID : string;
  Data_Asset_ID : string;
  Access_Type : access;
  IP_Location : region;
  PHI_Flag : option bool;
  Encryption_Status : option encryption;
  Policy_Violation : option Z
}.

(** ** Generating the metadata *)

Fixpoint zip3 {A B C D} (f : A → B → C → D)
    (xs : list A) (ys : list B) (zs : list C) : list D :=
  match xs, ys, zs with
  | x :: xs', y :: ys', z :: zs' => f x y z :: zip3 f xs' ys' zs'
  | _, _, _ => []
  end.

Definition asset_id (i : Z) : string := "ASSET_" +:+ format_d 4 i.

Definition generate_metadata (n_assets : nat) : Rand (list asset) :=
  let ids := map asset_id (range 1 (Z.of_nat n_assets + 1)) in
  phi <~ replicateM n_assets (choice_p [true; false] [30; 70]) ;;
  enc <~ replicateM n_assets (choice_p [Encrypted; Plain] [60; 40]) ;;
  ret (zip3 MkAsset ids phi enc).

(** ** Generating the access logs *)

Fixpoint zip5 {A B C D E F} (f : A → B → C → D → E → F)
    (xs : list A) (ys : list B) (zs : list C) (us : list D) (vs : list E) : list F :=
  match xs, ys, zs, us, vs with
  | x :: xs', y :: ys', z :: zs', u :: us', v :: vs' =>
      f x y z u v :: zip5 f xs' ys' zs' us' vs'
  | _, _, _, _, _ => []
  end.

(** The body of the timestamp loop. *)
Definition gen_timestamp : Rand timestamp :=
  days_offset <~ randint 0 180 ;;
  hours_offset <~ randint 0 24 ;;
  minutes_offset <~ randint 0 60 ;;
  ret (start_date + timedelta days_offset hours_offset minutes_offset).

Definition user_id (i : Z) : string := "USER_" +:+ format_d 3 i.

Definition generate_access_logs (n_logs : nat) (n_users : Z)
    (df_metadata : list asset) : Rand (list raw_log) :=
  timestamps <~ replicateM n_logs gen_timestamp ;;
  users <~ replicateM n_logs (randint 1 (n_users + 1)) ;;
  ids <~ replicateM n_logs (choice (map meta_Data_Asset_ID df_metadata)) ;;
  acc <~ replicateM n_logs (choice_p [Read; Write] [70; 30]) ;;
  ips <~ replicateM n_logs (choice_p [US; EU; AS] [60; 25; 15]) ;;
  ret (zip5 MkRaw timestamps (map user_id users) ids acc ips).

(** ** The merge: a left join on [Data_Asset_ID] *)

Definition joined (l : raw_log) (m : option asset) : row :=
  MkRow (raw_Timestamp l) (raw_User_ID l) (raw_Data_Asset_ID l)
        (raw_Access_Type l) (raw_IP_Location l)
        (meta_PHI_Flag <$> m) (meta_Encryption_Status <$> m) None.

Definition matching (df_metadata : list asset) (key : string) : list asset :=
  filter (λ a, meta_Data_Asset_ID a = key) df_metadata.

(** One output row per matching asset, in table order; a log row without a
    match is kept, its joined columns missing. *)
Definition merge_left (logs : list raw_log) (df_metadata : list asset) : list row :=
  flat_map (λ l, match matching df_metadata (raw_Data_Asset_ID l) with
                 | [] => [joined l None]
                 | ms => map (λ a, joined l (Some a)) ms
                 end) logs.

(** ** Injecting anomalies *)

Definition set_Timestamp (t : timestamp) (r : row) : row :=
  MkRow t (User_ID r) (Data_Asset_ID r) (Access_Type r) (IP_Location r)
        (PHI_Flag r) (Encryption_Status r) (Policy_Violation r).

Definition set_Data_Asset_ID (a : string) (r : row) : row :=
  MkRow (Timestamp r) (User_ID r) a (Access_Type r) (IP_Location r)
        (PHI_Flag r) (Encryption_Status r) (Policy_Violation r).

Definition set_IP_Location (ip : region) (r : row) : row :=
  MkRow (Timestamp r) (User_ID r) (Data_Asset_ID r) (Access_Type r) ip
        (PHI_Flag r) (Encryption_Status r) (Policy_Violation r).

Definition set_PHI_Flag (b : option bool) (r : row) : row :=
  MkRow (Timestamp r) (User_ID r) (Data_Asset_ID r) (Access_Type r) (IP_Location r)
        b (Encryption_Status r) (Policy_Violation r).

Definition set_Encryption_Status (e : option encryption) (r : row) : row :=
  MkRow (Timestamp r) (User_ID r) (Data_Asset_ID r) (Access_Type r) (IP_Location r)
        (PHI_Flag r) e (Policy_Violation r).

Definition set_Policy_Violation (v : option Z) (r : row) : row :=
  MkRow (Timestamp r) (User_ID r) (Data_Asset_ID r) (Access_Type r) (IP_Location r)
        (PHI_Flag r) (Encryption_Status r) v.

(** [x[i], x[j] = x[j], x[i]] *)
Definition swap {A} (x : list A) (i j : nat) : list A :=
  match x !! i, x !! j with
  | Some xi, Some xj => <[j:=xi]> (<[i:=xj]> x)
  | _, _ => x
  end.

(** [np.random.shuffle]: for [i] from [n - 1] down to [1], swap position
    [i] with a position drawn from [0, i]. *)
Fixpoint shuffle_from {A} (i : nat) (x : list A) : Rand (list A) :=
  match i with
  | O => ret x
  | S i' => j <~ random_below (Z.of_nat i + 1) ;;
            shuffle_from i' (swap x i (Z.to_nat j))
  end.

Definition shuffle {A} (x : list A) : Rand (list A) :=
  shuffle_from (length x - 1) x.

(** [df.loc[idx]] on a table with a [RangeIndex]. *)
Definition loc (df : list row) (idx : nat) : Rand row :=
  match df !! idx with
  | Some r => ret r
  | None => raise (KeyError idx)
  end.

Inductive anomaly := plain_phi | off_hours | non_us.

Global Instance anomaly_eq_dec : EqDecision anomaly.
Proof. solve_decision. Defined.

Definition plain_phi_assets (df_metadata : list asset) : list string :=
  map meta_Data_Asset_ID
      (filter (λ a, meta_PHI_Flag a = true ∧ meta_Encryption_Status a = Plain)
              df_metadata).

(** The three branches of the injection loop. *)
Definition apply_anomaly (df_metadata : list asset) (anomaly_type : anomaly)
    (r : row) : Rand row :=
  match anomaly_type with
  | plain_phi =>
      let ids := plain_phi_assets df_metadata in
      if decide (0 < length ids)%nat
      then a <~ choice ids ;;
           ret (set_Encryption_Status (Some Plain)
                  (set_PHI_Flag (Some true) (set_Data_Asset_ID a r)))
      else ret r
  | off_hours =>
      hour <~ choice (range 21 24 ++ range 0 5) ;;
      minute <~ randint 0 60 ;;
      ret (set_Timestamp (ts_replace (Timestamp r) hour minute) r)
  | non_us =>
      ip <~ choice [EU; AS] ;;
      ret (set_IP_Location ip r)
  end.

(** The body of the injection loop for one selected index. *)
Definition anomaly_row (df_metadata : list asset) (df : list row) (idx : nat) : Rand row :=
  r <~ loc df idx ;;
  anomaly_type <~ choice_p [plain_phi; off_hours; non_us] [40; 30; 30] ;;
  apply_anomaly df_metadata anomaly_type r.

Fixpoint mapM {A B} (f : A → Rand B) (l : list A) : Rand (list B) :=
  match l with
  | [] => ret []
  | a :: l' => b <~ f a ;; bs <~ mapM f l' ;; ret (b :: bs)
  end.

Definition select_anomaly_indices (n_anomalies : nat) (df : list row) : Rand (list nat) :=
  normal_indices <~ shuffle (seq 0 (length df)) ;;
  ret (take n_anomalies normal_indices).

(** [df.loc[indices] = rows]: the rows are written at the labels, in order. *)
Definition loc_assign (df : list row) (indices : list nat) (rows : list row) : list row :=
  foldl (λ d ir, <[ir.1 := ir.2]> d) df (zip indices rows).

(** The assignment as pandas checks it: an empty list of rows for an empty
    selection is accepted only when the table has no row either. *)
Definition loc_setitem (df : list row) (indices : list nat) (rows : list row) :
    Rand (list row) :=
  match indices, df with
  | [], _ :: _ =>
      raise (ValueError "Must have equal len keys and value when setting with an iterable")
  | _, _ => ret (loc_assign df indices rows)
  end.

Definition inject_anomalies (df_metadata : list asset) (df : list row)
    (anomaly_indices : list nat) : Rand (list row) :=
  anomaly_rows <~ mapM (anomaly_row df_metadata df) anomaly_indices ;;
  loc_setitem df anomaly_indices anomaly_rows.

(** ** Labelling policy violations *)

(** Python truth value of a [PHI_Flag] cell: a missing value (NaN) is true. *)
Definition truthy (v : option bool) : bool :=
  match v with
  | Some b => b
  | None => true
  end.

(** The three checks of the labelling loop, in order. *)
Definition violation (r : row) : bool :=
  let violation := false in
  let violation :=
    if truthy (PHI_Flag r) && bool_decide (Encryption_Status r = Some Plain)
    then true else violation in
  let hour := ts_hour (Timestamp r) in
  let violation :=
    if bool_decide (hour >= 21) || bool_decide (hour < 5)
    then true else violation in
  let violation :=
    if bool_decide (IP_Location r ≠ US) then true else violation in
  violation.

(** [df.iterrows()]: label and row, a snapshot of the table. *)
Definition iterrows (df : list row) : list (nat * row) :=
  zip (seq 0 (length df)) df.

(** [df.loc[idx, 'Policy_Violation'] = 1 if violation else 0] *)
Definition label_step (df : list row) (ir : nat * row) : list row :=
  alter (set_Policy_Violation (Some (if violation ir.2 then 1 else 0))) ir.1 df.

(** The labelling loop over a given sequence of (label, row) pairs. *)
Definition label_loop (df : list row) (rows : list (nat * row)) : list row :=
  foldl label_step df rows.

Definition label_violations (df : list row) : list row :=
  let df0 := map (set_Policy_Violation (Some 0)) df in
  label_loop df0 (iterrows df0).

(** ** The script *)

(** The tables of the script: [df_access_logs] as generated, after the
    merge, after the injection and after labelling. *)
Record script := MkScript {
  df_metadata : list asset;
  generated_logs : list raw_log;
  merged_logs : list row;
  anomaly_indices : list nat;
  injected_logs : list row;
  df_access_logs : list row
}.

Definition run (n_assets n_logs : nat) (n_users : Z) (n_anomalies : nat) : Rand script :=
  meta <~ generate_metadata n_assets ;;
  logs <~ generate_access_logs n_logs n_users meta ;;
  let merged := merge_left logs meta in
  indices <~ select_anomaly_indices n_anomalies merged ;;
  injected <~ inject_anomalies meta merged indices ;;
  ret (MkScript meta logs merged indices injected (label_violations injected)).

Definition n_assets : nat := 500.
Definition n_logs : nat := Z.to_nat 100000.
Definition n_users : Z := 100.
Definition n_anomalies : nat := 2500.

Definition main : Rand script := run n_assets n_logs n_users n_anomalies.

(** * Specification vocabulary *)

(** [total c P]: from every generator state, [c] returns without raising
    and its result satisfies [P]. *)
Definition total {A} (c : Rand A) (P : A → Prop) : Prop :=
  ∀ g, ∃ a g', c g = Ok (a, g') ∧ P a.

(** Reading a decimal numeral back, leading zeros allowed. *)
Definition parse_nat (s : string) : option nat :=
  Nat.of_uint <$> NilEmpty.uint_of_string s.

(** The joined columns of [r] are those of an asset carrying [r]'s
    identifier. *)
Definition consistent (meta : list asset) (r : row) : Prop :=
  ∃ a, a ∈ meta ∧ meta_Data_Asset_ID a = Data_Asset_ID r
       ∧ PHI_Flag r = Some (meta_PHI_Flag a)
       ∧ Encryption_Status r = Some (meta_Encryption_Status a).

(** The selected labels: a prefix of a permutation of all labels. *)
Definition selection (n_anomalies : nat) (df : list row) (indices : list nat) : Prop :=
  ∃ normal_indices, normal_indices ≡ₚ seq 0 (length df)
                    ∧ indices = take n_anomalies normal_indices.

(** What each branch does to the row it is given. *)
Definition anomaly_post (meta : list asset) (ty : anomaly) (r r' : row) : Prop :=
  match ty with
  | plain_phi =>
      (plain_phi_assets meta = [] ∧ r' = r)
      ∨ (∃ a, a ∈ meta ∧ meta_PHI_Flag a = true ∧ meta_Encryption_Status a = Plain
              ∧ r' = set_Encryption_Status (Some Plain)
                       (set_PHI_Flag (Some true)
                          (set_Data_Asset_ID (meta_Data_Asset_ID a) r)))
  | off_hours =>
      ∃ h m, h ∈ [21; 22; 23; 0; 1; 2; 3; 4] ∧ 0 ≤ m < 60
             ∧ r' = set_Timestamp (ts_replace (Timestamp r) h m) r
  | non_us =>
      ∃ ip, ip ∈ [EU; AS] ∧ r' = set_IP_Location ip r
  end.

(** [r'] is what the branch for [ty] returned on [r] for some draws. *)
Definition mutated_by (meta : list asset) (ty : anomaly) (r r' : row) : Prop :=
  ∃ g g', apply_anomaly meta ty r g = Ok (r', g').

(** [df'] is [df] with each selected row replaced by one mutation of that
    row, and nothing else changed. *)
Definition injection (meta : list asset) (df : list row) (indices : list nat)
    (df' : list row) : Prop :=
  length df' = length df
  ∧ (∀ i, i ∉ indices → df' !! i = df !! i)
  ∧ (∀ i, i ∈ indices →
       ∃ r r' ty, df !! i = Some r ∧ df' !! i = Some r' ∧ mutated_by meta ty r r').

(** The label of one row, as the loop body computes it. *)
Definition label_row (r : row) : row :=
  set_Policy_Violation (Some (if violation r then 1 else 0)) r.

(** What the tables of a finished run satisfy, stage by stage. *)
Record script_ok (na nl nk : nat) (s : script) : Prop := MkScriptOk {
  ok_meta_ids :
    map meta_Data_Asset_ID (df_metadata s) = map asset_id (range 1 (Z.of_nat na + 1));
  ok_meta_length : length (df_metadata s) = na;
  ok_generated_length : length (generated_logs s) = nl;
  ok_generated_ref :
    Forall (λ l, raw_Data_Asset_ID l ∈ map meta_Data_Asset_ID (df_metadata s))
           (generated_logs s);
  ok_merged : merged_logs s = merge_left (generated_logs s) (df_metadata s);
  ok_selection : selection nk (merged_logs s) (anomaly_indices s);
  ok_injection :
    injection (df_metadata s) (merged_logs s) (anomaly_indices s) (injected_logs s);
  ok_labels : df_access_logs s = label_violations (injected_logs s)
}.

(** The identifier pattern: four decimal digits, most significant first. *)
Definition digit (d : nat) : ascii := ascii_of_nat (48 + d).

Definition four_digits (k : nat) : string :=
  String (digit (k / 1000 mod 10))
    (String (digit (k / 100 mod 10))
       (String (digit (k / 10 mod 10))
          (String (digit (k mod 10)) ""))).

(** The three labelling rules, as stated for a row. *)
Definition rule_plain_phi (r : row) : Prop :=
  PHI_Flag r = Some true ∧ Encryption_Status r = Some Plain.

Definition rule_off_hours (r : row) : Prop :=
  ts_hour (Timestamp r) >= 21 ∨ ts_hour (Timestamp r) < 5.

Definition rule_non_us (r : row) : Prop := IP_Location r ≠ US.

(** A generator whose raw draws are all [z], one with varying draws, and
    sample rows. *)
Definition const_rng (z : Z) : rng := MkRng (λ _, z) 0.

Definition sample_rng : rng := MkRng (λ n, Z.of_nat n * 7919 + 13) 0.

Definition sample_row (ip : region) : row :=
  MkRow (timedelta 3 10 30) "USER_007" "ASSET_0001" Read ip
        (Some false) (Some Encrypted) None.

(** Reading an asset identifier back: the prefix, then the numeral. *)
Fixpoint strip_prefix (p s : string) : option string :=
  match p with
  | "" => Some s
  | String c p' =>
      match s with
      | String d s' => if decide (c = d) then strip_prefix p' s' else None
      | "" => None
      end
  end.

Definition parse_asset_id (s : string) : option Z :=
  match strip_prefix "ASSET_" s with
  | Some numeral => Z.of_nat <$> parse_nat numeral
  | None => None
  end.

(** The window of the log generator: 180 days from [start_date]. *)
Definition in_window (t : timestamp) : Prop :=
  start_date ≤ t < start_date + timedelta 180 0 0.

(** The columns of a merged row that the [DataFrame] constructor filled. *)
Definition generated_columns (r : row) : raw_log :=
  MkRaw (Timestamp r) (User_ID r) (Data_Asset_ID r) (Access_Type r) (IP_Location r).

(** [df['Policy_Violation'].sum()]: missing cells are skipped. *)
Definition violation_sum (df : list row) : Z :=
  sum_list (omap Policy_Violation df).

(** Sample tables. *)
Definition sample_metadata : list asset :=
  [MkAsset "ASSET_0001" true Encrypted;
   MkAsset "ASSET_0002" true Plain;
   MkAsset "ASSET_0003" false Plain].

Definition sample_logs : list raw_log :=
  [MkRaw (timedelta 0 9 0) "USER_001" "ASSET_0002" Read US;
   MkRaw (timedelta 5 23 59) "USER_100" "ASSET_0003" Write AS].

Definition unmatched_logs : list raw_log :=
  [MkRaw (timedelta 0 9 0) "USER_001" "ASSET_0777" Read US;
   MkRaw (timedelta 5 23 59) "USER_100" "ASSET_0999" Write US].

(** * Properties *)

(** ** Total correctness of a computation in [Rand] *)

Section Total.
Context {A B : Type}.

Lemma total_ret (a : A) (P : A → Prop) : P a → total (ret a) P.
Proof. intros Ha g. by exists a, g. Qed.

Lemma total_bind (c : Rand A) (k : A → Rand B) (P : A → Prop) (Q : B → Prop) :
  total c P → (∀ a, P a → total (k a) Q) → total (bind c k) Q.
Proof.
  intros Hc Hk g. destruct (Hc g) as (a & g1 & Ec & Ha).
  destruct (Hk a Ha g1) as (b & g2 & Ek & Hb).
  exists b, g2. unfold bind. by rewrite Ec.
Qed.

Lemma total_weaken (c : Rand A) (P Q : A → Prop) :
  total c P → (∀ a, P a → Q a) → total c Q.
Proof.
  intros Hc HPQ g. destruct (Hc g) as (a & g' & E & Ha). exists a, g'. auto.
Qed.

(** What [c] returned from some state is described by [P]. *)
Lemma total_inv (c : Rand A) (P : A → Prop) g a g' :
  total c P → c g = Ok (a, g') → P a.
Proof.
  intros Hc E. destruct (Hc g) as (a' & g'' & E' & Ha). congruence.
Qed.
End Total.

Lemma total_next_raw : total next_raw (λ _, True).
Proof. intros g. eexists _, _. split; [reflexivity | done]. Qed.

Lemma total_random_below n :
  0 < n → total (random_below n) (λ z, 0 ≤ z < n).
Proof.
  intros Hn. unfold random_below.
  eapply total_bind; [apply total_next_raw |].
  intros r _. apply total_ret. by apply Z.mod_pos_bound.
Qed.

Lemma total_randint low high :
  -9223372036854775808 ≤ low → high ≤ 9223372036854775808 → low < high →
  total (randint low high) (λ z, low ≤ z < high).
Proof.
  intros Hlow Hhigh Hlt. unfold randint.
  rewrite decide_False, decide_False, decide_True by lia.
  eapply total_bind; [apply total_random_below; lia |].
  intros k Hk. cbv beta in Hk. apply total_ret. lia.
Qed.

Lemma nth_elem_of {A} (a : list A) (i : nat) (d : A) :
  (i < length a)%nat → nth i a d ∈ a.
Proof. intros Hi. apply list_elem_of_In, nth_In, Hi. Qed.

Lemma total_choice {A} (a : list A) :
  a ≠ [] → total (choice a) (λ x, x ∈ a).
Proof.
  destruct a as [| x a']; [done | intros _]. unfold choice.
  eapply total_bind; [apply total_random_below; rewrite length_cons; lia |].
  intros i Hi. cbv beta in Hi. apply total_ret, nth_elem_of. lia.
Qed.

Lemma searchsorted_right_lt p : ∀ acc u,
  acc ≤ u → u < acc + sum_list p → (searchsorted_right p acc u < length p)%nat.
Proof.
  induction p as [| w p IH]; intros acc u Hle Hlt; simpl in *; [lia |].
  case_decide; [| lia].
  apply ->Nat.succ_lt_mono. apply IH; lia.
Qed.

Lemma total_choice_p {A} (a : list A) (p : list Z) :
  a ≠ [] → length a = length p → Forall (λ w, 0 ≤ w) p → sum_list p = 100 →
  total (choice_p a p) (λ x, x ∈ a).
Proof.
  destruct a as [| x a']; [done | intros _ Hlen Hpos Hsum]. unfold choice_p.
  rewrite decide_True by done.
  eapply total_bind; [apply total_randint; lia |].
  intros u Hu. cbv beta in Hu. apply total_ret, nth_elem_of. rewrite Hlen.
  apply searchsorted_right_lt; lia.
Qed.

Lemma total_replicateM {A} (n : nat) (c : Rand A) (P : A → Prop) :
  total c P → total (replicateM n c) (λ l, length l = n ∧ Forall P l).
Proof.
  intros Hc. induction n as [| n IH]; simpl.
  - by apply total_ret.
  - eapply total_bind; [exact Hc |]. intros x Hx.
    eapply total_bind; [exact IH |]. intros xs [Hlen Hxs].
    apply total_ret. simpl. auto.
Qed.

Lemma total_mapM {A B} (f : A → Rand B) (l : list A) (Q : A → B → Prop) :
  (∀ a, a ∈ l → total (f a) (Q a)) → total (mapM f l) (Forall2 Q l).
Proof.
  induction l as [| a l IH]; intros Hf; simpl.
  - apply total_ret. constructor.
  - eapply total_bind; [apply Hf; left |]. intros b Hb.
    eapply total_bind; [apply IH; intros; apply Hf; by right |]. intros bs Hbs.
    apply total_ret. by constructor.
Qed.

(** ** Asset identifiers *)

Lemma parse_digits n : parse_nat (digits n) = Some n.
Proof.
  unfold parse_nat, digits. rewrite NilEmpty.usu. simpl.
  by rewrite Unsigned.of_to.
Qed.

Lemma parse_zeros k s n : parse_nat s = Some n → parse_nat (zeros k +:+ s) = Some n.
Proof.
  intros Hs. induction k as [| k IH]; [done |].
  unfold parse_nat in *. simpl.
  destruct (NilEmpty.uint_of_string (zeros k +:+ s)) as [d |]; [| done].
  simpl in *. exact IH.
Qed.

Lemma parse_zfill w n : parse_nat (zfill w (digits n)) = Some n.
Proof. apply parse_zeros, parse_digits. Qed.

Lemma append_inv_head (p s1 s2 : string) : p +:+ s1 = p +:+ s2 → s1 = s2.
Proof. induction p as [| c p IH]; simpl; [done |]. intros [=]. auto. Qed.

Lemma asset_id_inj i j : 0 ≤ i → 0 ≤ j → asset_id i = asset_id j → i = j.
Proof.
  intros Hi Hj E. unfold asset_id, format_d in E.
  rewrite !decide_False in E by lia.
  apply append_inv_head in E.
  pose proof (parse_zfill 4 (Z.to_nat i)) as Pi.
  pose proof (parse_zfill 4 (Z.to_nat j)) as Pj.
  rewrite E in Pi. rewrite Pi in Pj. injection Pj as Pj. lia.
Qed.

Lemma elem_of_range a b k : k ∈ range a b ↔ a ≤ k < b.
Proof.
  unfold range. rewrite list_elem_of_fmap. split.
  - intros (n & -> & Hn). apply elem_of_seq in Hn. lia.
  - intros Hk. exists (Z.to_nat (k - a)). split; [lia |].
    apply elem_of_seq. lia.
Qed.

Lemma length_range a b : length (range a b) = Z.to_nat (b - a).
Proof. unfold range. by rewrite length_map, length_seq. Qed.

Lemma NoDup_range a b : NoDup (range a b).
Proof.
  unfold range. apply NoDup_fmap_2; [| apply NoDup_seq].
  intros x y. lia.
Qed.

Lemma lookup_range a b (i : nat) :
  (i < Z.to_nat (b - a))%nat → range a b !! i = Some (a + Z.of_nat i).
Proof.
  intros Hi. unfold range. rewrite list_lookup_fmap, lookup_seq_lt by done.
  done.
Qed.

Lemma NoDup_asset_ids n : NoDup (map asset_id (range 1 (Z.of_nat n + 1))).
Proof.
  apply NoDup_fmap_2_strong; [| apply NoDup_range].
  intros i j Hi Hj. apply elem_of_range in Hi, Hj.
  apply asset_id_inj; lia.
Qed.

Lemma zip3_columns (xs : list string) : ∀ (ys : list bool) (zs : list encryption),
  length ys = length xs → length zs = length xs →
  map meta_Data_Asset_ID (zip3 MkAsset xs ys zs) = xs ∧
  length (zip3 MkAsset xs ys zs) = length xs.
Proof.
  induction xs as [| x xs IH]; intros [| y ys] [| z zs] Hy Hz; simplify_eq/=; try done.
  destruct (IH ys zs) as [-> ->]; auto.
Qed.

(** ** The generators return *)

Lemma total_generate_metadata n :
  total (generate_metadata n)
        (λ meta, map meta_Data_Asset_ID meta = map asset_id (range 1 (Z.of_nat n + 1))
                 ∧ length meta = n).
Proof.
  unfold generate_metadata.
  eapply total_bind.
  { apply total_replicateM, (total_choice_p [true; false] [30; 70]);
      [done | done | repeat constructor; lia | done]. }
  intros phi [Hphi _].
  eapply total_bind.
  { apply total_replicateM, (total_choice_p [Encrypted; Plain] [60; 40]);
      [done | done | repeat constructor; lia | done]. }
  intros enc [Henc _]. apply total_ret.
  assert (length (map asset_id (range 1 (Z.of_nat n + 1))) = n) as Hids.
  { rewrite length_map, length_range. lia. }
  destruct (zip3_columns (map asset_id (range 1 (Z.of_nat n + 1))) phi enc)
    as [E1 E2]; [congruence | congruence |].
  split; [exact E1 | congruence].
Qed.

Lemma zip5_columns (ts : list timestamp) : ∀ (us ids : list string)
    (acc : list access) (ips : list region),
  length us = length ts → length ids = length ts →
  length acc = length ts → length ips = length ts →
  map raw_Data_Asset_ID (zip5 MkRaw ts us ids acc ips) = ids.
Proof.
  induction ts as [| t ts IH]; intros [| u us] [| i ids] [| a acc] [| p ips] H1 H2 H3 H4;
    simplify_eq/=; try done.
  f_equal. by apply IH.
Qed.

Lemma total_generate_access_logs n_logs n_users meta :
  meta ≠ [] → 0 < n_users < 9223372036854775808 →
  total (generate_access_logs n_logs n_users meta)
        (λ logs, length logs = n_logs
                 ∧ Forall (λ l, raw_Data_Asset_ID l ∈ map meta_Data_Asset_ID meta) logs).
Proof.
  intros Hmeta Husers. unfold generate_access_logs.
  eapply total_bind.
  { apply total_replicateM with (P := λ _, True). unfold gen_timestamp.
    eapply total_bind; [apply total_randint; lia |]. intros d _.
    eapply total_bind; [apply total_randint; lia |]. intros h _.
    eapply total_bind; [apply total_randint; lia |]. intros m _.
    by apply total_ret. }
  intros ts [Hts _].
  eapply total_bind; [apply total_replicateM, total_randint; lia |].
  intros us [Hus _].
  eapply total_bind.
  { apply total_replicateM, total_choice. by destruct meta. }
  intros ids [Hids Hin].
  eapply total_bind.
  { apply total_replicateM, (total_choice_p [Read; Write] [70; 30]);
      [done | done | repeat constructor; lia | done]. }
  intros acc [Hacc _].
  eapply total_bind.
  { apply total_replicateM, (total_choice_p [US; EU; AS] [60; 25; 15]);
      [done | done | repeat constructor; lia | done]. }
  intros ips [Hips _]. apply total_ret.
  pose proof (zip5_columns ts (map user_id us) ids acc ips) as Hcol.
  rewrite length_map in Hcol.
  specialize (Hcol ltac:(congruence) ltac:(congruence) ltac:(congruence) ltac:(congruence)).
  split.
  - rewrite <-(length_map raw_Data_Asset_ID), Hcol. done.
  - rewrite <-Hcol in Hin. by apply Forall_fmap in Hin.
Qed.

(** ** The merge keeps one row per log row *)

Lemma matching_absent meta key :
  key ∉ map meta_Data_Asset_ID meta → matching meta key = [].
Proof.
  unfold matching. induction meta as [| a meta IH]; intros Hk; [done |].
  rewrite filter_cons. rewrite fmap_cons, not_elem_of_cons in Hk.
  destruct Hk as [Hne Hk]. rewrite decide_False by done. auto.
Qed.

Lemma matching_unique meta a :
  NoDup (map meta_Data_Asset_ID meta) → a ∈ meta →
  matching meta (meta_Data_Asset_ID a) = [a].
Proof.
  unfold matching. induction meta as [| b meta IH]; intros Hnd Ha.
  - by apply elem_of_nil in Ha.
  - rewrite fmap_cons in Hnd. apply NoDup_cons in Hnd as [Hb Hnd].
    rewrite filter_cons. apply elem_of_cons in Ha as [-> | Ha].
    + rewrite decide_True by done. f_equal. by apply matching_absent.
    + rewrite decide_False; [by apply IH |].
      intros E. apply Hb. rewrite E. by apply list_elem_of_fmap_2.
Qed.

Lemma merge_left_matched logs meta :
  NoDup (map meta_Data_Asset_ID meta) →
  Forall (λ l, raw_Data_Asset_ID l ∈ map meta_Data_Asset_ID meta) logs →
  Forall2 (λ l r, ∃ a, a ∈ meta ∧ meta_Data_Asset_ID a = raw_Data_Asset_ID l
                       ∧ r = joined l (Some a))
          logs (merge_left logs meta).
Proof.
  intros Hnd. induction 1 as [| l logs Hl _ IH]; [constructor |].
  unfold merge_left. simpl. fold (merge_left logs meta).
  apply list_elem_of_fmap in Hl as (a & Ea & Ha).
  rewrite Ea, (matching_unique meta a Hnd Ha). simpl.
  constructor; [| exact IH]. by exists a.
Qed.

(** ** The shuffle is a permutation *)

Lemma delete_insert_same {A} (l : list A) : ∀ i b, delete i (<[i:=b]> l) = delete i l.
Proof. induction l as [| a l IH]; intros [| i] b; simpl; [done .. |]. by rewrite IH. Qed.

Lemma insert_Permutation {A} (l : list A) i a b :
  l !! i = Some a → <[i:=b]> l ≡ₚ b :: delete i l.
Proof.
  intros Hi. rewrite <-(delete_insert_same l i b).
  apply delete_Permutation, list_lookup_insert_eq. by eapply lookup_lt_Some.
Qed.

Lemma swap_Permutation {A} (x : list A) i j : swap x i j ≡ₚ x.
Proof.
  unfold swap. destruct (x !! i) as [xi |] eqn:Ei; [| done].
  destruct (x !! j) as [xj |] eqn:Ej; [| done].
  assert (<[i:=xj]> x !! j = Some xj) as Ej'.
  { rewrite list_lookup_insert. case_decide as Hc; [done |].
    rewrite <-Ej. destruct (decide (i = j)) as [-> |]; [| done].
    exfalso. apply Hc. split; [done |]. by eapply lookup_lt_Some. }
  etrans; [apply (insert_Permutation _ j xj xi Ej') |].
  etrans; [| symmetry; apply (delete_Permutation x i xi Ei)].
  apply Permutation_skip, (Permutation_cons_inv (a := xj)).
  etrans; [symmetry; apply (delete_Permutation _ j xj Ej') |].
  by apply insert_Permutation with xi.
Qed.

Lemma total_shuffle_from {A} i : ∀ x : list A,
  total (shuffle_from i x) (λ y, y ≡ₚ x).
Proof.
  induction i as [| i IH]; intros x; simpl.
  - by apply total_ret.
  - eapply total_bind; [apply total_random_below; lia |]. intros j _.
    eapply total_weaken; [apply IH |]. intros y Hy.
    cbv beta in Hy. rewrite Hy. apply swap_Permutation.
Qed.

Lemma total_shuffle {A} (x : list A) : total (shuffle x) (λ y, y ≡ₚ x).
Proof. apply total_shuffle_from. Qed.

Lemma total_select_anomaly_indices n df :
  total (select_anomaly_indices n df) (selection n df).
Proof.
  unfold select_anomaly_indices.
  eapply total_bind; [apply total_shuffle |]. intros p Hp.
  apply total_ret. by exists p.
Qed.

Lemma selection_NoDup n df indices : selection n df indices → NoDup indices.
Proof.
  intros (p & Hp & ->). eapply sublist_NoDup; [| apply sublist_take].
  rewrite Hp. apply NoDup_seq.
Qed.

Lemma selection_length n df indices :
  selection n df indices → length indices = (n `min` length df)%nat.
Proof.
  intros (p & Hp & ->). by rewrite length_take, Hp, length_seq.
Qed.

Lemma selection_bound n df indices :
  selection n df indices → Forall (λ i, (i < length df)%nat) indices.
Proof.
  intros (p & Hp & ->). apply Forall_forall. intros i Hi.
  apply elem_of_take in Hi as (k & Hk & _).
  apply list_elem_of_lookup_2 in Hk. rewrite Hp in Hk.
  apply elem_of_seq in Hk. lia.
Qed.

(** ** Writing the anomaly rows back *)

Lemma loc_assign_cons df i r indices rows :
  loc_assign df (i :: indices) (r :: rows) = loc_assign (<[i:=r]> df) indices rows.
Proof. reflexivity. Qed.

Lemma length_loc_assign indices : ∀ df rows,
  length (loc_assign df indices rows) = length df.
Proof.
  induction indices as [| i indices IH]; intros df [| r rows]; try done.
  rewrite loc_assign_cons, IH. apply length_insert.
Qed.

Lemma loc_assign_other indices : ∀ df rows i,
  i ∉ indices → loc_assign df indices rows !! i = df !! i.
Proof.
  induction indices as [| j indices IH]; intros df [| r rows] i Hi; try done.
  apply not_elem_of_cons in Hi as [Hne Hi].
  rewrite loc_assign_cons, IH by done. by apply list_lookup_insert_ne.
Qed.

Lemma loc_assign_written indices : ∀ df rows k i r,
  NoDup indices → Forall (λ i, (i < length df)%nat) indices →
  indices !! k = Some i → rows !! k = Some r →
  loc_assign df indices rows !! i = Some r.
Proof.
  induction indices as [| j indices IH]; intros df [| r' rows] k i r Hnd Hlt Hk Hr;
    try done.
  apply NoDup_cons in Hnd as [Hj Hnd]. apply Forall_cons in Hlt as [Hjlt Hlt].
  rewrite loc_assign_cons. destruct k as [| k]; simplify_eq/=.
  - rewrite loc_assign_other by done. by apply list_lookup_insert_eq.
  - eapply IH; eauto. by rewrite length_insert.
Qed.

(** ** The three anomaly branches *)

Lemma off_hours_range :
  (range 21 24 ++ range 0 5)%list = [21; 22; 23; 0; 1; 2; 3; 4].
Proof. reflexivity. Qed.

Lemma total_apply_anomaly meta ty r :
  total (apply_anomaly meta ty r) (anomaly_post meta ty r).
Proof.
  destruct ty; unfold apply_anomaly, anomaly_post.
  - case_decide as Hlen.
    + eapply total_bind.
      { apply total_choice. intros E. rewrite E in Hlen. simpl in Hlen. lia. }
      intros key Hkey. apply total_ret. right.
      apply list_elem_of_fmap in Hkey as (a & -> & Ha).
      apply list_elem_of_filter in Ha as [[Hphi Henc] Ha]. by exists a.
    + apply total_ret. left. split; [| done].
      destruct (plain_phi_assets meta); [done | simpl in Hlen; lia].
  - rewrite off_hours_range.
    eapply total_bind; [by apply total_choice |]. intros h Hh.
    eapply total_bind; [apply total_randint; lia |]. intros m Hm.
    apply total_ret. by exists h, m.
  - eapply total_bind; [by apply total_choice |]. intros ip Hip.
    apply total_ret. by exists ip.
Qed.

Lemma mutated_by_post meta ty r r' :
  mutated_by meta ty r r' → anomaly_post meta ty r r'.
Proof.
  intros (g & g' & E). eapply total_inv; [apply total_apply_anomaly | exact E].
Qed.

Lemma total_anomaly_row meta df idx r :
  df !! idx = Some r →
  total (anomaly_row meta df idx) (λ r', ∃ ty, mutated_by meta ty r r').
Proof.
  intros Hr g.
  destruct (total_choice_p [plain_phi; off_hours; non_us] [40; 30; 30]
              ltac:(done) ltac:(done) ltac:(repeat constructor; lia) ltac:(done) g)
    as (ty & g1 & E1 & _).
  destruct (total_apply_anomaly meta ty r g1) as (r' & g2 & E2 & _).
  exists r', g2. split; [| by exists ty, g1, g2].
  unfold anomaly_row, bind, loc. rewrite Hr.
  cbv beta iota delta [ret]. by rewrite E1.
Qed.

(** ** The injection *)

Lemma total_loc_setitem df indices rows :
  (indices = [] → df = []) →
  total (loc_setitem df indices rows) (λ df', df' = loc_assign df indices rows).
Proof.
  intros Hne. unfold loc_setitem.
  destruct indices as [| i indices]; [rewrite (Hne eq_refl) |]; by apply total_ret.
Qed.

Lemma total_inject_anomalies meta df indices :
  NoDup indices → Forall (λ i, (i < length df)%nat) indices →
  (indices = [] → df = []) →
  total (inject_anomalies meta df indices) (injection meta df indices).
Proof.
  intros Hnd Hlt Hne. unfold inject_anomalies.
  eapply total_bind.
  { apply total_mapM
      with (Q := λ idx r', ∃ r ty, df !! idx = Some r ∧ mutated_by meta ty r r').
    intros idx Hidx. rewrite Forall_forall in Hlt.
    destruct (lookup_lt_is_Some_2 df idx (Hlt idx Hidx)) as [r Hr].
    eapply total_weaken; [by apply total_anomaly_row |].
    intros r' [ty Hty]. by exists r, ty. }
  intros rows Hrows.
  eapply total_weaken; [by apply total_loc_setitem |]. intros df' ->.
  split; [| split].
  - apply length_loc_assign.
  - intros i Hi. by apply loc_assign_other.
  - intros i Hi. apply list_elem_of_lookup in Hi as [k Hk].
    destruct (Forall2_lookup_l _ _ _ _ _ Hrows Hk) as (r' & Hr' & r & ty & Hr & Hmut).
    exists r, r', ty. split; [done |]. split; [| done].
    by eapply loc_assign_written.
Qed.

Lemma anomaly_post_consistent meta ty r r' :
  anomaly_post meta ty r r' → consistent meta r → consistent meta r'.
Proof.
  destruct ty; simpl.
  - intros [[_ ->] | (a & Ha & Hphi & Henc & ->)]; [done |].
    intros _. exists a. simpl. by rewrite Hphi, Henc.
  - intros (h & m & _ & _ & ->). done.
  - intros (ip & _ & ->). done.
Qed.

Lemma injection_consistent meta df indices df' :
  injection meta df indices df' →
  Forall (consistent meta) df → Forall (consistent meta) df'.
Proof.
  intros (Hlen & Hother & Hsel) Hdf. rewrite Forall_lookup in Hdf |- *.
  intros i r' Hr'. destruct (decide (i ∈ indices)) as [Hi | Hi].
  - destruct (Hsel i Hi) as (r & r'' & ty & Hr & Hr'' & Hmut).
    simplify_eq. eapply anomaly_post_consistent; [by apply mutated_by_post |].
    by eapply Hdf.
  - rewrite (Hother i Hi) in Hr'. by eapply Hdf.
Qed.

(** ** The labelling loop is a per-row map *)

Lemma violation_set_Policy_Violation v r :
  violation (set_Policy_Violation v r) = violation r.
Proof. reflexivity. Qed.

Lemma label_row_set_Policy_Violation v r :
  label_row (set_Policy_Violation v r) = label_row r.
Proof. reflexivity. Qed.

Lemma label_row_idemp r : label_row (label_row r) = label_row r.
Proof. reflexivity. Qed.

Lemma lookup_iterrows df i : iterrows df !! i = (λ r, (i, r)) <$> df !! i.
Proof.
  unfold iterrows. rewrite lookup_zip_with.
  destruct (df !! i) as [r |] eqn:Hr.
  - rewrite lookup_seq_lt by (by eapply lookup_lt_Some). done.
  - by destruct (seq 0 (length df) !! i).
Qed.

Lemma elem_of_iterrows df i r : (i, r) ∈ iterrows df ↔ df !! i = Some r.
Proof.
  rewrite list_elem_of_lookup. split.
  - intros [k Hk]. rewrite lookup_iterrows in Hk.
    destruct (df !! k) eqn:E; simplify_eq/=. done.
  - intros Hr. exists i. by rewrite lookup_iterrows, Hr.
Qed.

Lemma fst_iterrows df : (iterrows df).*1 = seq 0 (length df).
Proof. unfold iterrows. apply fst_zip. by rewrite length_seq. Qed.

Lemma label_loop_cons df ir rows :
  label_loop df (ir :: rows) = label_loop (label_step df ir) rows.
Proof. reflexivity. Qed.

Lemma label_loop_other rows : ∀ df i,
  i ∉ rows.*1 → label_loop df rows !! i = df !! i.
Proof.
  induction rows as [| [j r] rows IH]; intros df i Hi; [done |].
  rewrite fmap_cons in Hi. apply not_elem_of_cons in Hi as [Hne Hi].
  rewrite label_loop_cons, IH by done.
  unfold label_step. simpl. by apply list_lookup_alter_ne.
Qed.

Lemma label_loop_at rows : ∀ df i r,
  NoDup rows.*1 → (i, r) ∈ rows →
  label_loop df rows !! i
  = set_Policy_Violation (Some (if violation r then 1 else 0)) <$> df !! i.
Proof.
  induction rows as [| [j r'] rows IH]; intros df i r Hnd Hin.
  - by apply elem_of_nil in Hin.
  - rewrite fmap_cons in Hnd. apply NoDup_cons in Hnd as [Hj Hnd].
    rewrite label_loop_cons. apply elem_of_cons in Hin as [E | Hin].
    + injection E as -> ->. rewrite label_loop_other by done.
      unfold label_step. simpl. apply list_lookup_alter_eq.
    + rewrite (IH _ i r) by done. unfold label_step. simpl.
      rewrite list_lookup_alter_ne; [done |].
      intros ->. apply Hj. by apply (list_elem_of_fmap_2 fst _ (i, r)).
Qed.

(** Whatever order the loop visits the rows of the snapshot in, it leaves
    each row with its own label. *)
Lemma label_loop_order df order :
  order ≡ₚ iterrows df → label_loop df order = map label_row df.
Proof.
  intros Hperm. apply list_eq. intros i. rewrite list_lookup_fmap.
  assert (NoDup order.*1) as Hnd.
  { rewrite Hperm, fst_iterrows. apply NoDup_seq. }
  destruct (df !! i) as [r |] eqn:Hr; simpl.
  - assert ((i, r) ∈ order) as Hin by (rewrite Hperm; by apply elem_of_iterrows).
    by rewrite (label_loop_at _ _ _ _ Hnd Hin), Hr.
  - rewrite label_loop_other; [done |].
    rewrite Hperm, fst_iterrows, elem_of_seq.
    apply lookup_ge_None in Hr. lia.
Qed.

Lemma label_row_reset df :
  map label_row (map (set_Policy_Violation (Some 0)) df) = map label_row df.
Proof. rewrite <-list_fmap_compose. by apply list_fmap_ext. Qed.

Lemma label_violations_map df : label_violations df = map label_row df.
Proof.
  unfold label_violations. rewrite label_loop_order by done. apply label_row_reset.
Qed.

(** ** The script returns, and what its tables satisfy *)

Lemma selection_nonempty n df indices :
  (0 < n)%nat → selection n df indices → indices = [] → df = [].
Proof.
  intros Hn Hsel E. apply selection_length in Hsel. rewrite E in Hsel.
  destruct df; [done | simpl in Hsel; lia].
Qed.

Lemma total_run na nl nu nk :
  (0 < na)%nat → (0 < nl)%nat → 0 < nu < 9223372036854775808 → (0 < nk)%nat →
  total (run na nl nu nk) (script_ok na nl nk).
Proof.
  intros Hna _ Hnu Hnk. unfold run.
  eapply total_bind; [apply total_generate_metadata |]. intros meta [Hids Hlen].
  eapply total_bind.
  { apply total_generate_access_logs; [| done]. intros ->. simpl in Hlen. lia. }
  intros logs [Hlogs Href].
  eapply total_bind; [apply total_select_anomaly_indices |]. intros indices Hsel.
  eapply total_bind.
  { apply total_inject_anomalies;
      [by eapply selection_NoDup | by eapply selection_bound
      | by eapply selection_nonempty]. }
  intros injected Hinj. apply total_ret. by constructor.
Qed.

Section Script.
Context {na nl nk : nat} {s : script} (Hs : script_ok na nl nk s).

Lemma script_NoDup_ids : NoDup (map meta_Data_Asset_ID (df_metadata s)).
Proof. rewrite (ok_meta_ids _ _ _ _ Hs). apply NoDup_asset_ids. Qed.

Lemma script_merged_matched :
  Forall2 (λ l r, ∃ a, a ∈ df_metadata s
                       ∧ meta_Data_Asset_ID a = raw_Data_Asset_ID l
                       ∧ r = joined l (Some a))
          (generated_logs s) (merged_logs s).
Proof.
  rewrite (ok_merged _ _ _ _ Hs).
  apply merge_left_matched; [apply script_NoDup_ids | apply (ok_generated_ref _ _ _ _ Hs)].
Qed.

Lemma script_merged_length : length (merged_logs s) = nl.
Proof.
  rewrite <-(Forall2_length _ _ _ script_merged_matched).
  apply (ok_generated_length _ _ _ _ Hs).
Qed.

Lemma script_merged_consistent : Forall (consistent (df_metadata s)) (merged_logs s).
Proof.
  apply Forall_forall. intros r Hr.
  apply list_elem_of_lookup in Hr as [i Hi].
  destruct (Forall2_lookup_r _ _ _ _ _ script_merged_matched Hi)
    as (l & _ & a & Ha & Eid & ->).
  by exists a.
Qed.

Lemma script_injected_length : length (injected_logs s) = nl.
Proof.
  destruct (ok_injection _ _ _ _ Hs) as (-> & _). apply script_merged_length.
Qed.

Lemma script_injected_consistent :
  Forall (consistent (df_metadata s)) (injected_logs s).
Proof.
  eapply injection_consistent;
    [apply (ok_injection _ _ _ _ Hs) | apply script_merged_consistent].
Qed.

Lemma script_indices_length : length (anomaly_indices s) = (nk `min` nl)%nat.
Proof.
  rewrite (selection_length _ _ _ (ok_selection _ _ _ _ Hs)).
  by rewrite script_merged_length.
Qed.
End Script.

Lemma total_main : total main (script_ok n_assets n_logs n_anomalies).
Proof.
  apply total_run;
    [unfold n_assets | unfold n_logs | unfold n_users | unfold n_anomalies]; lia.
Qed.

(** * Concrete runs *)

Example asset_id_first : asset_id 1 = "ASSET_0001".
Proof. reflexivity. Qed.

Example asset_id_wide : asset_id 12345 = "ASSET_12345".
Proof. reflexivity. Qed.

Example user_id_7 : user_id 7 = "USER_007".
Proof. reflexivity. Qed.

Example shuffle_five :
  ∃ g, shuffle [0; 1; 2; 3; 4]%nat sample_rng = Ok ([1; 4; 2; 0; 3]%nat, g).
Proof. eexists. reflexivity. Qed.

Example choice_empty_raises :
  generate_access_logs 1 100 [] sample_rng = Raise (ValueError "a must be non-empty").
Proof. reflexivity. Qed.

Example off_hours_sample :
  ∃ r' g, apply_anomaly [] off_hours (sample_row US) sample_rng = Ok (r', g)
          ∧ ts_hour (Timestamp (sample_row US)) = 10
          ∧ ts_hour (Timestamp r') = 2 ∧ ts_minute (Timestamp r') = 12
          ∧ ts_date (Timestamp r') = 3.
Proof. eexists _, _. split; [reflexivity |]. done. Qed.

Example randint_beyond_int64 :
  randint 1 (9223372036854775808 + 1) sample_rng
  = Raise (ValueError "high is out of bounds for int64").
Proof. reflexivity. Qed.

Example empty_selection_raises :
  ∃ msg, inject_anomalies sample_metadata [sample_row US] [] sample_rng
         = Raise (ValueError msg).
Proof. eexists. reflexivity. Qed.

Example empty_selection_of_empty_table :
  inject_anomalies sample_metadata [] [] sample_rng = Ok ([], sample_rng).
Proof. reflexivity. Qed.

Example label_sample :
  map Policy_Violation (label_violations [sample_row US; sample_row EU])
  = [Some 0; Some 1].
Proof. reflexivity. Qed.

(** A small run of the whole script: 3 assets, 5 log rows, 2 anomalies. *)
Example run_small :
  ∃ s g, run 3 5 2 2 sample_rng = Ok (s, g)
         ∧ map meta_Data_Asset_ID (df_metadata s)
           = ["ASSET_0001"; "ASSET_0002"; "ASSET_0003"]
         ∧ anomaly_indices s = [4; 1]%nat
         ∧ map Data_Asset_ID (merged_logs s)
           = ["ASSET_0003"; "ASSET_0002"; "ASSET_0001"; "ASSET_0003"; "ASSET_0002"]
         ∧ map Data_Asset_ID (injected_logs s)
           = ["ASSET_0003"; "ASSET_0001"; "ASSET_0001"; "ASSET_0003"; "ASSET_0002"]
         ∧ map (λ r, ts_hour (Timestamp r)) (merged_logs s) = [6; 3; 0; 21; 18]
         ∧ map (λ r, ts_hour (Timestamp r)) (injected_logs s) = [6; 3; 0; 21; 4]
         ∧ map Policy_Violation (df_access_logs s)
           = [Some 1; Some 1; Some 1; Some 1; Some 1]
         ∧ cursor g = 50%nat.
Proof. eexists _, _. split; [vm_compute; reflexivity |]. by vm_compute. Qed.

(** * The claims *)

Lemma asset_id_pattern :
  Forall (λ i : nat, asset_id (1 + Z.of_nat i) = "ASSET_" +:+ four_digits (S i))
         (seq 0 n_assets).
Proof. apply (bool_decide_unpack _). by vm_compute. Qed.

(** C7.  The asset generator returns exactly 500 assets; their identifiers
    are pairwise distinct, and the identifier at position [i] (from 0) is
    [ASSET_] followed by [i + 1] written with four digits, from
    [ASSET_0001] to [ASSET_0500]. *)
Theorem asset_ids_sequential :
  total (generate_metadata n_assets) (λ meta,
    length meta = 500%nat
    ∧ NoDup (map meta_Data_Asset_ID meta)
    ∧ (∀ i, (i < 500)%nat →
         meta_Data_Asset_ID <$> meta !! i = Some ("ASSET_" +:+ four_digits (S i)))
    ∧ meta_Data_Asset_ID <$> meta !! 0%nat = Some "ASSET_0001"
    ∧ meta_Data_Asset_ID <$> meta !! 499%nat = Some "ASSET_0500").
Proof.
  eapply total_weaken; [apply total_generate_metadata |].
  intros meta [Hids Hlen].
  assert (∀ i, (i < 500)%nat →
            meta_Data_Asset_ID <$> meta !! i = Some ("ASSET_" +:+ four_digits (S i)))
    as Hpat.
  { intros i Hi. rewrite <-list_lookup_fmap.
    change (meta_Data_Asset_ID <$> meta) with (map meta_Data_Asset_ID meta).
    rewrite Hids, list_lookup_fmap.
    rewrite lookup_range by (unfold n_assets; lia). simpl.
    f_equal. pose proof asset_id_pattern as H.
    rewrite Forall_forall in H. apply H, elem_of_seq. unfold n_assets. lia. }
  split; [exact Hlen |]. split; [rewrite Hids; apply NoDup_asset_ids |].
  split; [exact Hpat |].
  split; [apply (Hpat 0%nat) | apply (Hpat 499%nat)]; lia.
Qed.

Lemma violation_rules r :
  is_Some (PHI_Flag r) →
  violation r = true ↔ rule_plain_phi r ∨ rule_off_hours r ∨ rule_non_us r.
Proof.
  intros [b Hb]. unfold violation, rule_plain_phi, rule_off_hours, rule_non_us.
  rewrite Hb. simpl.
  destruct b; simpl; repeat case_bool_decide; simpl; split;
    try done; try (intros _; by eauto); intros [[? ?] | [[?|?] | ?]];
    try done; try lia; by simplify_eq.
Qed.

Lemma consistent_is_Some meta r : consistent meta r → is_Some (PHI_Flag r).
Proof. intros (a & _ & _ & -> & _). by eexists. Qed.

(** C1.  The script returns, and in its final table every row carries
    [Policy_Violation] 1 or 0: 1 exactly when the row has a true PHI flag
    with status Plain, or an hour of at least 21 or below 5, or a region
    other than US, and 0 otherwise.  The other columns are those the row
    had after the injection. *)
Theorem policy_violation_rules :
  total main (λ s,
    length (df_access_logs s) = length (injected_logs s)
    ∧ ∀ idx r, df_access_logs s !! idx = Some r →
        (∃ r0, injected_logs s !! idx = Some r0
               ∧ r = set_Policy_Violation (Policy_Violation r) r0)
        ∧ (Policy_Violation r = Some 1
           ↔ rule_plain_phi r ∨ rule_off_hours r ∨ rule_non_us r)
        ∧ (Policy_Violation r = Some 0
           ↔ ¬ (rule_plain_phi r ∨ rule_off_hours r ∨ rule_non_us r))).
Proof.
  eapply total_weaken; [apply total_main |]. intros s Hs.
  rewrite (ok_labels _ _ _ _ Hs), label_violations_map.
  split; [apply length_map |]. intros idx r Hr.
  rewrite list_lookup_fmap in Hr.
  destruct (injected_logs s !! idx) as [r0 |] eqn:Hr0; simplify_eq/=.
  split; [by exists r0 |].
  assert (is_Some (PHI_Flag r0)) as Hphi.
  { eapply consistent_is_Some.
    pose proof (script_injected_consistent Hs) as Hc.
    rewrite Forall_lookup in Hc. by eapply Hc. }
  pose proof (violation_rules r0 Hphi) as Hv.
  change (rule_plain_phi (label_row r0)) with (rule_plain_phi r0).
  change (rule_off_hours (label_row r0)) with (rule_off_hours r0).
  change (rule_non_us (label_row r0)) with (rule_non_us r0).
  rewrite <-Hv. destruct (violation r0); split; split; try done; intros H; by apply H.
Qed.

Lemma violation_tuple r1 r2 :
  PHI_Flag r1 = PHI_Flag r2 → Encryption_Status r1 = Encryption_Status r2 →
  ts_hour (Timestamp r1) = ts_hour (Timestamp r2) → IP_Location r1 = IP_Location r2 →
  violation r1 = violation r2.
Proof. intros H1 H2 H3 H4. unfold violation. by rewrite H1, H2, H3, H4. Qed.

(** C2.  The labeller is a per-row function: labelling a labelled table
    again returns the same table; the loop visiting the rows in any order
    produces the table the script's order produces; each output row is the
    label of the input row at the same position; and two rows that agree on
    PHI flag, encryption status, hour and region get the same label. *)
Theorem labeller_idempotent (df : list row) (order : list (nat * row)) :
  order ≡ₚ iterrows (map (set_Policy_Violation (Some 0)) df) →
  label_violations (label_violations df) = label_violations df
  ∧ label_loop (map (set_Policy_Violation (Some 0)) df) order = label_violations df
  ∧ (∀ idx, label_violations df !! idx = label_row <$> df !! idx)
  ∧ (∀ r1 r2,
       PHI_Flag r1 = PHI_Flag r2 → Encryption_Status r1 = Encryption_Status r2 →
       ts_hour (Timestamp r1) = ts_hour (Timestamp r2) →
       IP_Location r1 = IP_Location r2 →
       Policy_Violation (label_row r1) = Policy_Violation (label_row r2)).
Proof.
  intros Horder. rewrite !label_violations_map. repeat split.
  - rewrite <-list_fmap_compose. apply list_fmap_ext. intros _ r _. apply label_row_idemp.
  - rewrite (label_loop_order _ _ Horder). apply label_row_reset.
  - intros idx. apply list_lookup_fmap.
  - intros r1 r2 H1 H2 H3 H4. simpl. by rewrite (violation_tuple r1 r2).
Qed.

Lemma labeller_idempotent_witness :
  let df := [sample_row US; sample_row EU] in
  label_violations (label_violations df) = label_violations df
  ∧ label_loop (map (set_Policy_Violation (Some 0)) df)
               [(1%nat, set_Policy_Violation (Some 0) (sample_row EU));
                (0%nat, set_Policy_Violation (Some 0) (sample_row US))]
    = label_violations df.
Proof.
  intros df.
  destruct (labeller_idempotent df
              [(1%nat, set_Policy_Violation (Some 0) (sample_row EU));
               (0%nat, set_Policy_Violation (Some 0) (sample_row US))])
    as (H1 & H2 & _).
  - simpl. apply perm_swap.
  - split; [exact H1 | exact H2].
Defined.

(** C3.  The script returns; the injector selected exactly 2500 pairwise
    distinct labels, the first 2500 of a permutation of all labels; the log
    table has 100000 rows before and after the injection; each selected row
    holds what one anomaly type does to the row as it was before the
    injection (plain_phi: retargeted to a PHI-and-Plain asset, or left
    alone when there is none; off_hours: hour and minute replaced;
    non_us: region replaced by EU or AS); every other row is unchanged. *)
Theorem injection_selects_distinct_rows :
  total main (λ s,
    length (anomaly_indices s) = 2500%nat
    ∧ NoDup (anomaly_indices s)
    ∧ (∃ normal_indices,
         normal_indices ≡ₚ seq 0 (length (merged_logs s))
         ∧ anomaly_indices s = take 2500 normal_indices)
    ∧ Z.of_nat (length (merged_logs s)) = 100000
    ∧ Z.of_nat (length (injected_logs s)) = 100000
    ∧ (∀ idx, idx ∈ anomaly_indices s →
         ∃ r r' ty, merged_logs s !! idx = Some r
                    ∧ injected_logs s !! idx = Some r'
                    ∧ anomaly_post (df_metadata s) ty r r')
    ∧ (∀ idx, idx ∉ anomaly_indices s →
         injected_logs s !! idx = merged_logs s !! idx)).
Proof.
  eapply total_weaken; [apply total_main |]. intros s Hs.
  pose proof (ok_selection _ _ _ _ Hs) as Hsel.
  destruct (ok_injection _ _ _ _ Hs) as (_ & Hother & Hmut0).
  assert (∀ idx, idx ∈ anomaly_indices s →
            ∃ r r' ty, merged_logs s !! idx = Some r
                       ∧ injected_logs s !! idx = Some r'
                       ∧ anomaly_post (df_metadata s) ty r r') as Hmut.
  { intros idx Hidx. destruct (Hmut0 idx Hidx) as (r & r' & ty & Hr & Hr' & Hby).
    exists r, r', ty. split; [done |]. split; [done |]. by apply mutated_by_post. }
  split. { rewrite (script_indices_length Hs). unfold n_anomalies, n_logs. lia. }
  split. { by eapply selection_NoDup. }
  split. { exact Hsel. }
  split. { rewrite (script_merged_length Hs). unfold n_logs. lia. }
  split. { rewrite (script_injected_length Hs). unfold n_logs. lia. }
  split; [exact Hmut | exact Hother].
Qed.

Lemma consistent_ref meta r :
  consistent meta r → Data_Asset_ID r ∈ map meta_Data_Asset_ID meta.
Proof. intros (a & Ha & E & _). rewrite <-E. by apply list_elem_of_fmap_2. Qed.

Lemma anomaly_post_ref meta ty r r' :
  anomaly_post meta ty r r' →
  Data_Asset_ID r' = Data_Asset_ID r
  ∨ Data_Asset_ID r' ∈ map meta_Data_Asset_ID meta.
Proof.
  destruct ty; simpl.
  - intros [[_ ->] | (a & Ha & _ & _ & ->)]; [by left | right].
    change (meta_Data_Asset_ID a ∈ map meta_Data_Asset_ID meta).
    by apply list_elem_of_fmap_2.
  - intros (h & m & _ & _ & ->). by left.
  - intros (ip & _ & ->). by left.
Qed.

(** C6.  The script returns, and every asset identifier of a log row is an
    identifier of the asset table: in the generated logs, after the merge,
    after the injection and in the final table.  A mutation keeps the
    row's identifier or replaces it by one of the asset table. *)
Theorem referential_integrity :
  total main (λ s,
    let ids := map meta_Data_Asset_ID (df_metadata s) in
    Forall (λ l, raw_Data_Asset_ID l ∈ ids) (generated_logs s)
    ∧ Forall (λ r, Data_Asset_ID r ∈ ids) (merged_logs s)
    ∧ Forall (λ r, Data_Asset_ID r ∈ ids) (injected_logs s)
    ∧ Forall (λ r, Data_Asset_ID r ∈ ids) (df_access_logs s)
    ∧ (∀ ty r r', mutated_by (df_metadata s) ty r r' →
         Data_Asset_ID r' = Data_Asset_ID r ∨ Data_Asset_ID r' ∈ ids)).
Proof.
  eapply total_weaken; [apply total_main |]. intros s Hs. simpl.
  pose proof (script_merged_consistent Hs) as Hm.
  pose proof (script_injected_consistent Hs) as Hi.
  split; [apply (ok_generated_ref _ _ _ _ Hs) |].
  split; [eapply Forall_impl; [exact Hm | apply consistent_ref] |].
  split; [eapply Forall_impl; [exact Hi | apply consistent_ref] |].
  split.
  - rewrite (ok_labels _ _ _ _ Hs), label_violations_map. apply Forall_fmap.
    eapply Forall_impl; [exact Hi |]. intros r Hr. by apply consistent_ref.
  - intros ty r r' Hmut. by apply anomaly_post_ref with ty, mutated_by_post.
Qed.

Lemma asset_unique meta a b :
  NoDup (map meta_Data_Asset_ID meta) → a ∈ meta → b ∈ meta →
  meta_Data_Asset_ID a = meta_Data_Asset_ID b → a = b.
Proof.
  intros Hnd Ha Hb E.
  pose proof (matching_unique meta a Hnd Ha) as Ma.
  pose proof (matching_unique meta b Hnd Hb) as Mb.
  rewrite E in Ma. congruence.
Qed.

Lemma consistent_asset meta r a :
  NoDup (map meta_Data_Asset_ID meta) → consistent meta r →
  a ∈ meta → meta_Data_Asset_ID a = Data_Asset_ID r →
  PHI_Flag r = Some (meta_PHI_Flag a)
  ∧ Encryption_Status r = Some (meta_Encryption_Status a).
Proof.
  intros Hnd (b & Hb & Eb & Hphi & Henc) Ha Ea.
  by rewrite (asset_unique meta a b Hnd Ha Hb) by congruence.
Qed.

Lemma anomaly_post_frame meta ty r r' :
  anomaly_post meta ty r r' → ty ≠ plain_phi →
  Data_Asset_ID r' = Data_Asset_ID r ∧ PHI_Flag r' = PHI_Flag r
  ∧ Encryption_Status r' = Encryption_Status r.
Proof.
  destruct ty; simpl; [done | |].
  - by intros (h & m & _ & _ & ->).
  - by intros (ip & _ & ->).
Qed.

(** C9.  The script returns, and when the labeller starts every row
    references exactly one asset, whose PHI flag and encryption status are
    the row's: this holds after the merge and after the injection.  A
    mutation of a type other than plain_phi changes neither the row's asset
    identifier nor its two joined columns. *)
Theorem denormalized_fields_match_asset :
  total main (λ s,
    NoDup (map meta_Data_Asset_ID (df_metadata s))
    ∧ (∀ r, r ∈ merged_logs s ∨ r ∈ injected_logs s →
         (∃ a, a ∈ df_metadata s ∧ meta_Data_Asset_ID a = Data_Asset_ID r)
         ∧ ∀ a, a ∈ df_metadata s → meta_Data_Asset_ID a = Data_Asset_ID r →
             PHI_Flag r = Some (meta_PHI_Flag a)
             ∧ Encryption_Status r = Some (meta_Encryption_Status a))
    ∧ (∀ ty r r', mutated_by (df_metadata s) ty r r' → ty ≠ plain_phi →
         Data_Asset_ID r' = Data_Asset_ID r ∧ PHI_Flag r' = PHI_Flag r
         ∧ Encryption_Status r' = Encryption_Status r)).
Proof.
  eapply total_weaken; [apply total_main |]. intros s Hs.
  pose proof (script_NoDup_ids Hs) as Hnd.
  pose proof (script_merged_consistent Hs) as Hm.
  pose proof (script_injected_consistent Hs) as Hi.
  rewrite Forall_forall in Hm, Hi.
  split; [exact Hnd |]. split.
  - intros r Hr.
    assert (consistent (df_metadata s) r) as Hc by (destruct Hr; auto).
    split.
    + destruct Hc as (a & Ha & Ea & _). by exists a.
    + intros a Ha Ea. by apply (consistent_asset (df_metadata s)).
  - intros ty r r' Hmut.
    by apply (anomaly_post_frame (df_metadata s)), mutated_by_post.
Qed.

(** ** Timestamps under [replace] *)

Lemma ts_replace_split t h m :
  ts_replace t h m = (ts_date t * 24 + h) * 60 + m.
Proof. unfold ts_replace. lia. Qed.

Lemma ts_hour_replace t h m :
  0 ≤ h < 24 → 0 ≤ m < 60 → ts_hour (ts_replace t h m) = h.
Proof.
  intros Hh Hm. unfold ts_hour. rewrite ts_replace_split.
  rewrite Z.div_add_l, (Z.div_small m 60), Z.add_0_r by lia.
  rewrite Z.add_comm, Z.mod_add by lia. apply Z.mod_small. lia.
Qed.

Lemma ts_minute_bound t : 0 ≤ ts_minute t < 60.
Proof. unfold ts_minute. apply Z.mod_pos_bound. lia. Qed.

Lemma ts_minute_replace t h m : 0 ≤ m < 60 → ts_minute (ts_replace t h m) = m.
Proof.
  intros Hm. unfold ts_minute. rewrite ts_replace_split.
  rewrite Z.add_comm, Z.mod_add by lia. apply Z.mod_small. lia.
Qed.

Lemma ts_date_replace t h m :
  0 ≤ h < 24 → 0 ≤ m < 60 → ts_date (ts_replace t h m) = ts_date t.
Proof.
  intros Hh Hm. unfold ts_replace.
  replace (ts_date t * 1440 + h * 60 + m) with (ts_date t * 1440 + (h * 60 + m)) by lia.
  unfold ts_date at 1. rewrite Z.div_add_l, Z.div_small by lia. lia.
Qed.

Lemma off_hours_bounds h : h ∈ [21; 22; 23; 0; 1; 2; 3; 4] → 0 ≤ h < 24 ∧ (h >= 21 ∨ h < 5).
Proof. intros Hh. repeat (apply elem_of_cons in Hh as [-> | Hh]); [lia .. |]. by apply elem_of_nil in Hh. Qed.

(** C8.  The off_hours branch always returns; in the row it returns the
    hour is one of 21, 22, 23, 0, 1, 2, 3, 4, the minute lies in [0, 60),
    the date is the date of the row it was given, and every other column
    is unchanged. *)
Theorem off_hours_frame (meta : list asset) (r : row) :
  total (apply_anomaly meta off_hours r) (λ r',
    ts_hour (Timestamp r') ∈ [21; 22; 23; 0; 1; 2; 3; 4]
    ∧ 0 ≤ ts_minute (Timestamp r') < 60
    ∧ ts_date (Timestamp r') = ts_date (Timestamp r)
    ∧ User_ID r' = User_ID r
    ∧ Data_Asset_ID r' = Data_Asset_ID r
    ∧ Access_Type r' = Access_Type r
    ∧ IP_Location r' = IP_Location r
    ∧ PHI_Flag r' = PHI_Flag r
    ∧ Encryption_Status r' = Encryption_Status r
    ∧ Policy_Violation r' = Policy_Violation r).
Proof.
  eapply total_weaken; [apply total_apply_anomaly |].
  intros r' (h & m & Hh & Hm & ->). simpl.
  destruct (off_hours_bounds h Hh) as [Hh24 _].
  rewrite ts_hour_replace, ts_date_replace by done.
  split; [exact Hh |]. split; [apply ts_minute_bound |]. done.
Qed.

(** C4, as the code has it.  The non_us branch always returns; the region
    of the row it returns is EU or AS, it differs from the region before
    whenever that was US, and no other column changes. *)
Theorem non_us_region (meta : list asset) (r : row) :
  total (apply_anomaly meta non_us r) (λ r',
    IP_Location r' ∈ [EU; AS]
    ∧ (IP_Location r = US → IP_Location r' ≠ IP_Location r)
    ∧ r' = set_IP_Location (IP_Location r') r).
Proof.
  eapply total_weaken; [apply total_apply_anomaly |].
  intros r' (ip & Hip & ->). simpl. split; [exact Hip |]. split; [| done].
  intros ->. repeat (apply elem_of_cons in Hip as [-> | Hip]); [done .. |].
  by apply elem_of_nil in Hip.
Qed.

(** C4, as stated, fails: on a row whose region is EU, with a draw that
    selects EU, the non_us branch returns the row unchanged. *)
Lemma non_us_keeps_region :
  apply_anomaly [] non_us (sample_row EU) (const_rng 0)
  = Ok (sample_row EU, MkRng (λ _, 0) 1)
  ∧ ¬ (∀ meta r g r' g',
         apply_anomaly meta non_us r g = Ok (r', g') →
         IP_Location r' ∈ [EU; AS] ∧ IP_Location r' ≠ IP_Location r).
Proof.
  split; [reflexivity |]. intros H.
  destruct (H [] (sample_row EU) (const_rng 0) (sample_row EU) (MkRng (λ _, 0) 1)
              eq_refl) as [_ Hne].
  by apply Hne.
Qed.

Lemma plain_phi_assets_nil meta :
  Forall (λ a, ¬ (meta_PHI_Flag a = true ∧ meta_Encryption_Status a = Plain)) meta →
  plain_phi_assets meta = [].
Proof.
  intros H. unfold plain_phi_assets.
  induction H as [| a meta Ha _ IH]; [done |].
  rewrite filter_cons, decide_False by done. exact IH.
Qed.

(** C5.  With no asset that is both PHI and Plain in the asset table, an
    injection attempt whose type draw is plain_phi returns, without
    raising and without a further draw, the row it read; writing that row
    back leaves the table as it was, and the injection over that label
    returns the table unchanged. *)
Theorem plain_phi_noop (meta : list asset) (df : list row) (idx : nat) (r : row)
    (g g1 : rng) :
  Forall (λ a, ¬ (meta_PHI_Flag a = true ∧ meta_Encryption_Status a = Plain)) meta →
  df !! idx = Some r →
  choice_p [plain_phi; off_hours; non_us] [40; 30; 30] g = Ok (plain_phi, g1) →
  apply_anomaly meta plain_phi r g1 = Ok (r, g1)
  ∧ anomaly_row meta df idx g = Ok (r, g1)
  ∧ <[idx:=r]> df = df
  ∧ inject_anomalies meta df [idx] g = Ok (df, g1).
Proof.
  intros Hnone Hr Hty.
  assert (apply_anomaly meta plain_phi r g1 = Ok (r, g1)) as Hbranch.
  { unfold apply_anomaly. by rewrite (plain_phi_assets_nil meta Hnone). }
  assert (anomaly_row meta df idx g = Ok (r, g1)) as Hrow.
  { unfold anomaly_row, bind, loc. rewrite Hr.
    cbv beta iota delta [ret]. by rewrite Hty. }
  assert (<[idx:=r]> df = df) as Hback by (by apply list_insert_id).
  repeat split; try done.
  unfold inject_anomalies, mapM, bind. rewrite Hrow.
  cbv beta iota delta [ret loc_setitem].
  change (loc_assign df [idx] [r]) with (<[idx:=r]> df). by rewrite Hback.
Qed.

Lemma plain_phi_noop_witness :
  let meta := [MkAsset "ASSET_0001" true Encrypted; MkAsset "ASSET_0002" false Plain] in
  let df := [sample_row US; sample_row EU] in
  apply_anomaly meta plain_phi (sample_row EU) (MkRng (λ _, 0) 1)
  = Ok (sample_row EU, MkRng (λ _, 0) 1)
  ∧ anomaly_row meta df 1 (const_rng 0) = Ok (sample_row EU, MkRng (λ _, 0) 1)
  ∧ <[1%nat:=sample_row EU]> df = df
  ∧ inject_anomalies meta df [1%nat] (const_rng 0) = Ok (df, MkRng (λ _, 0) 1).
Proof.
  intros meta df.
  apply (plain_phi_noop meta df 1 (sample_row EU) (const_rng 0) (MkRng (λ _, 0) 1)).
  - apply (bool_decide_unpack _). vm_compute. exact I.
  - reflexivity.
  - reflexivity.
Defined.

Lemma violation_complete r :
  rule_plain_phi r ∨ rule_off_hours r ∨ rule_non_us r → violation r = true.
Proof.
  unfold violation, rule_plain_phi, rule_off_hours, rule_non_us. intros H.
  destruct (truthy (PHI_Flag r) && bool_decide (Encryption_Status r = Some Plain))
    eqn:E1,
    (bool_decide (ts_hour (Timestamp r) >= 21) || bool_decide (ts_hour (Timestamp r) < 5))
    eqn:E2,
    (bool_decide (IP_Location r ≠ US)) eqn:E3; try done.
  exfalso. destruct H as [[Hp He] | [Hh | Hi]].
  - rewrite Hp, He, bool_decide_eq_true_2 in E1 by done. done.
  - apply orb_false_iff in E2 as [Ha Hb].
    apply bool_decide_eq_false in Ha, Hb. lia.
  - by apply bool_decide_eq_false in E3.
Qed.

Lemma anomaly_post_violation meta ty r r' :
  anomaly_post meta ty r r' →
  violation r' = true ∨ (ty = plain_phi ∧ plain_phi_assets meta = [] ∧ r' = r).
Proof.
  destruct ty; simpl.
  - intros [[Hnil ->] | (a & _ & _ & _ & ->)]; [by right | left].
    apply violation_complete. by left.
  - intros (h & m & Hh & Hm & ->). left.
    apply violation_complete. right. left. unfold rule_off_hours. simpl.
    destruct (off_hours_bounds h Hh) as [Hh24 Hoff].
    by rewrite ts_hour_replace.
  - intros (ip & Hip & ->). left.
    apply violation_complete. right. right. unfold rule_non_us. simpl.
    repeat (apply elem_of_cons in Hip as [-> | Hip]); [done .. |].
    by apply elem_of_nil in Hip.
Qed.

(** C10.  A row returned by the off_hours or the non_us branch is
    labelled 1 by the labeller, wherever it stands in the table; a row
    returned by an anomaly branch and labelled 0 was returned by the
    plain_phi branch, with no PHI-and-Plain asset in the asset table and
    the row left as it was. *)
Theorem mutated_rows_labelled (meta : list asset) (ty : anomaly) (r r' : row)
    (df : list row) (idx : nat) :
  mutated_by meta ty r r' →
  df !! idx = Some r' →
  (ty = off_hours ∨ ty = non_us →
     Policy_Violation <$> label_violations df !! idx = Some (Some 1))
  ∧ (Policy_Violation <$> label_violations df !! idx = Some (Some 0) →
     ty = plain_phi ∧ plain_phi_assets meta = [] ∧ r' = r).
Proof.
  intros Hmut Hidx. apply mutated_by_post, anomaly_post_violation in Hmut.
  rewrite label_violations_map, list_lookup_fmap, Hidx. simpl. split.
  - intros Hty. destruct Hmut as [-> | (-> & _)]; [done |].
    by destruct Hty.
  - intros Hlab. destruct Hmut as [Hv | Hnoop]; [| exact Hnoop].
    rewrite Hv in Hlab. done.
Qed.

Lemma mutated_rows_labelled_witness :
  let r' := set_IP_Location EU (sample_row US) in
  (non_us = off_hours ∨ non_us = non_us →
     Policy_Violation <$> label_violations [sample_row US; r'] !! 1%nat = Some (Some 1))
  ∧ (Policy_Violation <$> label_violations [sample_row US; r'] !! 1%nat = Some (Some 0) →
     non_us = plain_phi ∧ plain_phi_assets [] = [] ∧ r' = sample_row US).
Proof.
  intros r'.
  apply (mutated_rows_labelled [] non_us (sample_row US) r' [sample_row US; r'] 1).
  - exists (const_rng 0), (MkRng (λ _, 0) 1). reflexivity.
  - reflexivity.
Defined.

(** * Further properties of the script *)

(** ** Identifiers can be read back *)

Lemma strip_prefix_app p s : strip_prefix p (p +:+ s) = Some s.
Proof. induction p as [| c p IH]; simpl; [done |]. by rewrite decide_True. Qed.

Lemma parse_asset_id_of i : 0 ≤ i → parse_asset_id (asset_id i) = Some i.
Proof.
  intros Hi. unfold parse_asset_id, asset_id. rewrite strip_prefix_app.
  unfold format_d. rewrite decide_False by lia.
  rewrite parse_zfill. simpl. f_equal. lia.
Qed.

Example parse_asset_id_42 : parse_asset_id "ASSET_0042" = Some 42.
Proof. reflexivity. Qed.

Example parse_asset_id_other_prefix : parse_asset_id "USER_001" = None.
Proof. reflexivity. Qed.

(** X1.  For any number of assets, also beyond 9999 where the numeral
    outgrows four digits, the asset generator returns that many assets with
    pairwise distinct identifiers, and reading the identifier at position
    [k] back gives [k + 1]. *)
Theorem generated_ids_read_back (n : nat) :
  total (generate_metadata n) (λ meta,
    length meta = n
    ∧ NoDup (map meta_Data_Asset_ID meta)
    ∧ ∀ (k : nat) a, meta !! k = Some a →
        parse_asset_id (meta_Data_Asset_ID a) = Some (Z.of_nat k + 1)).
Proof.
  eapply total_weaken; [apply total_generate_metadata |].
  intros meta [Hids Hlen]. split; [exact Hlen |].
  split; [rewrite Hids; apply NoDup_asset_ids |].
  intros k a Hk.
  assert (map meta_Data_Asset_ID meta !! k = Some (meta_Data_Asset_ID a)) as Hid.
  { by rewrite list_lookup_fmap, Hk. }
  rewrite Hids, list_lookup_fmap, lookup_range in Hid.
  - simpl in Hid. injection Hid as <-.
    rewrite parse_asset_id_of by lia. f_equal. lia.
  - apply lookup_lt_Some in Hk. lia.
Qed.

(** ** The plain_phi branch when a target exists *)

Lemma elem_of_plain_phi_assets meta a :
  a ∈ meta → meta_PHI_Flag a = true → meta_Encryption_Status a = Plain →
  meta_Data_Asset_ID a ∈ plain_phi_assets meta.
Proof.
  intros Ha Hphi Henc. unfold plain_phi_assets.
  apply list_elem_of_fmap_2, list_elem_of_filter. by split.
Qed.

(** X2.  When the asset table has an asset that is PHI and Plain, the
    plain_phi branch always returns; the row it returns references one of
    those assets, has PHI flag true and status Plain, keeps timestamp,
    user, access type, region and label column as they were, and is
    labelled 1 by the labeller. *)
Theorem plain_phi_retargets (meta : list asset) (r : row) :
  plain_phi_assets meta ≠ [] →
  total (apply_anomaly meta plain_phi r) (λ r',
    Data_Asset_ID r' ∈ plain_phi_assets meta
    ∧ PHI_Flag r' = Some true
    ∧ Encryption_Status r' = Some Plain
    ∧ Timestamp r' = Timestamp r
    ∧ User_ID r' = User_ID r
    ∧ Access_Type r' = Access_Type r
    ∧ IP_Location r' = IP_Location r
    ∧ Policy_Violation r' = Policy_Violation r
    ∧ Policy_Violation (label_row r') = Some 1).
Proof.
  intros Hne. eapply total_weaken; [apply total_apply_anomaly |].
  intros r' [[Hnil _] | (a & Ha & Hphi & Henc & ->)]; [done |].
  split; [by apply elem_of_plain_phi_assets |].
  repeat (split; [done |]). unfold label_row.
  rewrite violation_complete; [done |]. by left.
Qed.

Lemma plain_phi_retargets_witness :
  total (apply_anomaly sample_metadata plain_phi (sample_row US)) (λ r',
    Data_Asset_ID r' ∈ plain_phi_assets sample_metadata
    ∧ PHI_Flag r' = Some true
    ∧ Encryption_Status r' = Some Plain
    ∧ Timestamp r' = Timestamp (sample_row US)
    ∧ User_ID r' = User_ID (sample_row US)
    ∧ Access_Type r' = Access_Type (sample_row US)
    ∧ IP_Location r' = IP_Location (sample_row US)
    ∧ Policy_Violation r' = Policy_Violation (sample_row US)
    ∧ Policy_Violation (label_row r') = Some 1).
Proof. apply (plain_phi_retargets sample_metadata (sample_row US)). by vm_compute. Defined.

(** ** The merge, on any two tables *)

Lemma generated_columns_joined l m : generated_columns (joined l m) = l.
Proof. by destruct l. Qed.

Lemma merge_left_cons l logs meta :
  merge_left (l :: logs) meta
  = (match matching meta (raw_Data_Asset_ID l) with
     | [] => [joined l None]
     | ms => map (λ a, joined l (Some a)) ms
     end ++ merge_left logs meta)%list.
Proof. reflexivity. Qed.

(** X3.  Whatever the two tables hold, the left join drops no log row:
    the result has at least as many rows as the log table, and every log
    row is the generated part of some result row. *)
Theorem merge_left_drops_no_row (logs : list raw_log) (meta : list asset) :
  (length logs ≤ length (merge_left logs meta))%nat
  ∧ Forall (λ l, l ∈ map generated_columns (merge_left logs meta)) logs.
Proof.
  induction logs as [| l logs [IHlen IHin]]; [split; [done | constructor] |].
  rewrite merge_left_cons.
  destruct (matching meta (raw_Data_Asset_ID l)) as [| a ms]; split.
  - simpl. lia.
  - constructor; [simpl; rewrite generated_columns_joined; left |].
    eapply Forall_impl; [exact IHin |]. intros l' Hl'. simpl. by right.
  - rewrite length_app, length_map. simpl. lia.
  - rewrite map_app. constructor.
    + apply elem_of_app. left. simpl. rewrite generated_columns_joined. left.
    + eapply Forall_impl; [exact IHin |]. intros l' Hl'.
      apply elem_of_app. by right.
Qed.

(** X4.  When asset identifiers are unique and every log row references
    one of them, the left join returns exactly one row per log row, in the
    same order and with the generated columns untouched, and fills the two
    joined columns from the referenced asset. *)
Theorem merge_left_one_row_each (logs : list raw_log) (meta : list asset) :
  NoDup (map meta_Data_Asset_ID meta) →
  Forall (λ l, raw_Data_Asset_ID l ∈ map meta_Data_Asset_ID meta) logs →
  map generated_columns (merge_left logs meta) = logs
  ∧ Forall (consistent meta) (merge_left logs meta)
  ∧ Forall (λ r, Policy_Violation r = None) (merge_left logs meta).
Proof.
  intros Hnd Href. pose proof (merge_left_matched logs meta Hnd Href) as H.
  induction H as [| l r logs rows (a & Ha & Ea & ->) _ IH]; [done |].
  apply Forall_cons in Href as [_ Href]. destruct (IH Href) as (E & Hc & Hp).
  split; [| split].
  - simpl. by rewrite generated_columns_joined, E.
  - constructor; [by exists a | exact Hc].
  - by constructor.
Qed.

Lemma merge_left_one_row_each_witness :
  map generated_columns (merge_left sample_logs sample_metadata) = sample_logs
  ∧ Forall (consistent sample_metadata) (merge_left sample_logs sample_metadata)
  ∧ Forall (λ r, Policy_Violation r = None) (merge_left sample_logs sample_metadata).
Proof.
  apply (merge_left_one_row_each sample_logs sample_metadata).
  - apply (bool_decide_unpack _). by vm_compute.
  - apply (bool_decide_unpack _). by vm_compute.
Defined.

Lemma violation_unmatched l :
  violation (joined l None) = true
  ↔ rule_off_hours (joined l None) ∨ rule_non_us (joined l None).
Proof.
  split.
  - unfold violation, rule_off_hours, rule_non_us. simpl.
    destruct (bool_decide (ts_hour (raw_Timestamp l) >= 21)
              || bool_decide (ts_hour (raw_Timestamp l) < 5)) eqn:E2.
    + intros _. left. apply orb_true_iff in E2 as [E | E];
        apply bool_decide_eq_true in E; auto.
    + destruct (bool_decide (raw_IP_Location l ≠ US)) eqn:E3; [| by intros [=]].
      intros _. right. by apply bool_decide_eq_true in E3.
  - intros H. apply violation_complete. by right.
Qed.

(** X5.  Log rows whose asset identifier is not in the asset table are
    kept by the left join, one row each, with both joined columns missing;
    the labeller marks such a row exactly when its hour is off-hours or its
    region is not US: a missing PHI flag never fires the first rule. *)
Theorem unmatched_rows_kept (logs : list raw_log) (meta : list asset) :
  Forall (λ l, raw_Data_Asset_ID l ∉ map meta_Data_Asset_ID meta) logs →
  merge_left logs meta = map (λ l, joined l None) logs
  ∧ ∀ idx r, label_violations (merge_left logs meta) !! idx = Some r →
      PHI_Flag r = None ∧ Encryption_Status r = None
      ∧ (Policy_Violation r = Some 1 ↔ rule_off_hours r ∨ rule_non_us r)
      ∧ (Policy_Violation r = Some 0 ↔ ¬ (rule_off_hours r ∨ rule_non_us r)).
Proof.
  intros Hno.
  assert (merge_left logs meta = map (λ l, joined l None) logs) as E.
  { induction Hno as [| l logs Hl _ IH]; [done |].
    by rewrite merge_left_cons, (matching_absent meta _ Hl), IH. }
  split; [exact E |]. intros idx r Hr.
  rewrite E, label_violations_map, !list_lookup_fmap in Hr.
  destruct (logs !! idx) as [l |]; simplify_eq/=.
  split; [done |]. split; [done |].
  pose proof (violation_unmatched l) as Hv.
  change (rule_off_hours (label_row (joined l None)))
    with (rule_off_hours (joined l None)).
  change (rule_non_us (label_row (joined l None)))
    with (rule_non_us (joined l None)).
  rewrite <-Hv. destruct (violation (joined l None)); split; split;
    try done; intros H; by apply H.
Qed.

Lemma unmatched_rows_kept_witness :
  merge_left unmatched_logs sample_metadata
  = map (λ l, joined l None) unmatched_logs
  ∧ ∀ idx r,
      label_violations (merge_left unmatched_logs sample_metadata) !! idx = Some r →
      PHI_Flag r = None ∧ Encryption_Status r = None
      ∧ (Policy_Violation r = Some 1 ↔ rule_off_hours r ∨ rule_non_us r)
      ∧ (Policy_Violation r = Some 0 ↔ ¬ (rule_off_hours r ∨ rule_non_us r)).
Proof.
  apply (unmatched_rows_kept unmatched_logs sample_metadata).
  apply (bool_decide_unpack _). by vm_compute.
Defined.

(** ** Columns the pipeline only carries along *)

Lemma total_conj {A} (c : Rand A) (P Q : A → Prop) :
  total c P → total c Q → total c (λ a, P a ∧ Q a).
Proof.
  intros HP HQ g. destruct (HP g) as (a & g' & E & Ha).
  exists a, g'. split; [exact E |]. split; [exact Ha |].
  by apply (total_inv c Q g a g').
Qed.

Lemma zip5_Forall (P : timestamp → Prop) (Q : string → Prop) (ts : list timestamp) :
  ∀ (us ids : list string) (acc : list access) (ips : list region),
  Forall P ts → Forall Q us →
  Forall (λ l, P (raw_Timestamp l) ∧ Q (raw_User_ID l)) (zip5 MkRaw ts us ids acc ips).
Proof.
  induction ts as [| t ts IH]; intros [| u us] [| i ids] [| a acc] [| p ips] Hts Hus;
    simpl; try constructor.
  - apply Forall_cons in Hts as [Ht _]. apply Forall_cons in Hus as [Hu _]. done.
  - apply Forall_cons in Hts as [_ Hts]. apply Forall_cons in Hus as [_ Hus].
    by apply IH.
Qed.

Lemma total_gen_timestamp : total gen_timestamp in_window.
Proof.
  unfold gen_timestamp.
  eapply total_bind; [apply total_randint; lia |]. intros d Hd.
  eapply total_bind; [apply total_randint; lia |]. intros h Hh.
  eapply total_bind; [apply total_randint; lia |]. intros m Hm.
  apply total_ret. cbv beta in *. unfold in_window, start_date, timedelta. lia.
Qed.

Lemma total_generate_access_logs_columns nl nu meta :
  meta ≠ [] → 0 < nu < 9223372036854775808 →
  total (generate_access_logs nl nu meta)
        (Forall (λ l, in_window (raw_Timestamp l)
                      ∧ raw_User_ID l ∈ map user_id (range 1 (nu + 1)))).
Proof.
  intros Hmeta Hnu. unfold generate_access_logs.
  eapply total_bind; [apply total_replicateM, total_gen_timestamp |].
  intros ts [_ Hts].
  eapply total_bind; [apply total_replicateM, total_randint; lia |].
  intros us [_ Hus].
  eapply total_bind.
  { apply total_replicateM, total_choice. by destruct meta. }
  intros ids _.
  eapply total_bind.
  { apply total_replicateM, (total_choice_p [Read; Write] [70; 30]);
      [done | done | repeat constructor; lia | done]. }
  intros acc _.
  eapply total_bind.
  { apply total_replicateM, (total_choice_p [US; EU; AS] [60; 25; 15]);
      [done | done | repeat constructor; lia | done]. }
  intros ips _. apply total_ret.
  apply (zip5_Forall in_window (λ u, u ∈ map user_id (range 1 (nu + 1))));
    [exact Hts |].
  apply Forall_fmap. eapply Forall_impl; [exact Hus |].
  intros k Hk. cbv beta in Hk. unfold compose.
  apply list_elem_of_fmap_2, elem_of_range. lia.
Qed.

Lemma total_run_generated na nl nu nk (P : list raw_log → Prop) :
  (0 < na)%nat → (0 < nl)%nat → 0 < nu < 9223372036854775808 → (0 < nk)%nat →
  (∀ meta, meta ≠ [] → total (generate_access_logs nl nu meta) P) →
  total (run na nl nu nk) (λ s, script_ok na nl nk s ∧ P (generated_logs s)).
Proof.
  intros Hna Hnl Hnu Hnk HP. apply total_conj; [by apply total_run |]. unfold run.
  eapply total_bind; [apply total_generate_metadata |]. intros meta [_ Hlen].
  assert (meta ≠ []) as Hmeta by (intros ->; simpl in Hlen; lia).
  eapply total_bind.
  { apply total_conj; [by apply total_generate_access_logs | by apply HP]. }
  intros logs [[_ Href] Hlogs].
  eapply total_bind; [apply total_select_anomaly_indices |]. intros indices Hsel.
  eapply total_bind.
  { apply total_inject_anomalies;
      [by eapply selection_NoDup | by eapply selection_bound
      | by eapply selection_nonempty]. }
  intros injected _. by apply total_ret.
Qed.

Lemma injection_Forall meta df indices df' (P : row → Prop) :
  (∀ ty r r', anomaly_post meta ty r r' → P r → P r') →
  injection meta df indices df' → Forall P df → Forall P df'.
Proof.
  intros Hpost (_ & Hother & Hsel) Hdf. rewrite Forall_lookup in Hdf |- *.
  intros i r' Hr'. destruct (decide (i ∈ indices)) as [Hi | Hi].
  - destruct (Hsel i Hi) as (r & r'' & ty & Hr & Hr'' & Hmut).
    simplify_eq. eapply Hpost; [by apply mutated_by_post |]. by eapply Hdf.
  - rewrite (Hother i Hi) in Hr'. by eapply Hdf.
Qed.

Lemma injection_column {C} meta df indices df' (f : row → C) :
  (∀ ty r r', anomaly_post meta ty r r' → f r' = f r) →
  injection meta df indices df' → map f df' = map f df.
Proof.
  intros Hpost (_ & Hother & Hsel). apply list_eq. intros i.
  rewrite !list_lookup_fmap. destruct (decide (i ∈ indices)) as [Hi | Hi].
  - destruct (Hsel i Hi) as (r & r' & ty & -> & -> & Hmut). simpl.
    f_equal. eapply Hpost. by apply mutated_by_post.
  - by rewrite (Hother i Hi).
Qed.

Lemma anomaly_post_carried meta ty r r' :
  anomaly_post meta ty r r' →
  User_ID r' = User_ID r ∧ Access_Type r' = Access_Type r
  ∧ Policy_Violation r' = Policy_Violation r.
Proof.
  destruct ty; simpl.
  - by intros [[_ ->] | (a & _ & _ & _ & ->)].
  - by intros (h & m & _ & _ & ->).
  - by intros (ip & _ & ->).
Qed.

Lemma merged_columns logs (meta : list asset) rows :
  Forall2 (λ l r, ∃ a, a ∈ meta ∧ meta_Data_Asset_ID a = raw_Data_Asset_ID l
                       ∧ r = joined l (Some a)) logs rows →
  map generated_columns rows = logs.
Proof.
  induction 1 as [| l r logs rows (a & _ & _ & ->) _ IH]; [done |].
  simpl. by rewrite generated_columns_joined, IH.
Qed.

Lemma script_carried_columns {na nl nk s} (Hs : script_ok na nl nk s) :
  map User_ID (df_access_logs s) = map raw_User_ID (generated_logs s)
  ∧ map Access_Type (df_access_logs s) = map raw_Access_Type (generated_logs s).
Proof.
  pose proof (merged_columns _ _ _ (script_merged_matched Hs)) as Hm.
  pose proof (ok_injection _ _ _ _ Hs) as Hinj.
  assert (∀ ty r r', anomaly_post (df_metadata s) ty r r' →
            User_ID r' = User_ID r ∧ Access_Type r' = Access_Type r) as Hpost.
  { intros ty r r' H. by destruct (anomaly_post_carried _ _ _ _ H) as (? & ? & ?). }
  rewrite (ok_labels _ _ _ _ Hs), label_violations_map. split.
  - trans (map User_ID (injected_logs s)).
    { rewrite <-list_fmap_compose. reflexivity. }
    trans (map User_ID (merged_logs s)).
    { eapply injection_column; [| exact Hinj]. intros ty r r' H. by destruct (Hpost ty r r' H). }
    rewrite <-Hm, <-list_fmap_compose. reflexivity.
  - trans (map Access_Type (injected_logs s)).
    { rewrite <-list_fmap_compose. reflexivity. }
    trans (map Access_Type (merged_logs s)).
    { eapply injection_column; [| exact Hinj]. intros ty r r' H. by destruct (Hpost ty r r' H). }
    rewrite <-Hm, <-list_fmap_compose. reflexivity.
Qed.

(** X6.  The script returns, and the user and access-type columns of the
    final table are, row by row, the columns the log generator drew:
    neither the merge, nor any anomaly branch, nor the labeller changes
    them or the row order. *)
Theorem user_and_access_columns_carried :
  total main (λ s,
    map User_ID (df_access_logs s) = map raw_User_ID (generated_logs s)
    ∧ map Access_Type (df_access_logs s) = map raw_Access_Type (generated_logs s)).
Proof.
  eapply total_weaken; [apply total_main |]. intros s Hs.
  exact (script_carried_columns Hs).
Qed.

Lemma user_pool_shape :
  NoDup (map user_id (range 1 (n_users + 1)))
  ∧ Forall (λ u, String.length u = 8%nat) (map user_id (range 1 (n_users + 1)))
  ∧ head (map user_id (range 1 (n_users + 1))) = Some "USER_001"
  ∧ last (map user_id (range 1 (n_users + 1))) = Some "USER_100".
Proof.
  split; [apply (bool_decide_unpack _); by vm_compute |].
  split; [apply (bool_decide_unpack _); by vm_compute |].
  split; reflexivity.
Qed.

Lemma total_main_generated :
  total main (λ s,
    script_ok n_assets n_logs n_anomalies s
    ∧ Forall (λ l, in_window (raw_Timestamp l)
                   ∧ raw_User_ID l ∈ map user_id (range 1 (n_users + 1)))
             (generated_logs s)).
Proof.
  apply total_run_generated;
    [unfold n_assets; lia | unfold n_logs; lia | unfold n_users; lia
    | unfold n_anomalies; lia |].
  intros meta Hmeta. apply total_generate_access_logs_columns; [done |].
  unfold n_users. lia.
Qed.

(** X7.  The script returns, and every row of the final table carries one
    of the 100 user identifiers [USER_001] ... [USER_100]: these are
    pairwise distinct and eight characters long. *)
Theorem users_from_pool :
  total main (λ s,
    let pool := map user_id (range 1 (n_users + 1)) in
    Forall (λ r, User_ID r ∈ pool) (df_access_logs s)
    ∧ length pool = 100%nat ∧ NoDup pool
    ∧ Forall (λ u, String.length u = 8%nat) pool
    ∧ head pool = Some "USER_001" ∧ last pool = Some "USER_100").
Proof.
  eapply total_weaken; [apply total_main_generated |]. intros s [Hs Hgen].
  destruct user_pool_shape as (Hnd & Hlen & Hhd & Hlast). simpl.
  split; [| by repeat split].
  destruct (script_carried_columns Hs) as [Hu _].
  apply Forall_forall. intros r Hr.
  assert (User_ID r ∈ map User_ID (df_access_logs s)) as Hin
    by (by apply list_elem_of_fmap_2).
  rewrite Hu in Hin. apply list_elem_of_fmap in Hin as (l & -> & Hl).
  rewrite Forall_forall in Hgen. by apply Hgen.
Qed.

Lemma in_window_date t : in_window t ↔ 0 ≤ ts_date t < 180.
Proof.
  unfold in_window, start_date, timedelta, ts_date.
  pose proof (Z.div_mod t 1440 ltac:(lia)).
  pose proof (Z.mod_pos_bound t 1440 ltac:(lia)). lia.
Qed.

Lemma in_window_replace t h m :
  in_window t → 0 ≤ h < 24 → 0 ≤ m < 60 → in_window (ts_replace t h m).
Proof.
  intros Ht Hh Hm. apply in_window_date.
  rewrite ts_date_replace by done. by apply in_window_date.
Qed.

Lemma anomaly_post_window meta ty r r' :
  anomaly_post meta ty r r' → in_window (Timestamp r) → in_window (Timestamp r').
Proof.
  destruct ty; simpl.
  - by intros [[_ ->] | (a & _ & _ & _ & ->)].
  - intros (h & m & Hh & Hm & ->) Ht. simpl.
    destruct (off_hours_bounds h Hh) as [Hh24 _]. by apply in_window_replace.
  - by intros (ip & _ & ->).
Qed.

(** X8.  The script returns, and every timestamp of the final table lies
    in the 180 days from the start date, with hour in [0, 24) and minute in
    [0, 60): the log generator draws inside the window and the off_hours
    branch, which keeps the date, cannot leave it. *)
Theorem timestamps_in_window :
  total main (λ s,
    Forall (λ r, start_date ≤ Timestamp r < start_date + timedelta 180 0 0
                 ∧ 0 ≤ ts_date (Timestamp r) < 180
                 ∧ 0 ≤ ts_hour (Timestamp r) < 24
                 ∧ 0 ≤ ts_minute (Timestamp r) < 60)
           (df_access_logs s)).
Proof.
  eapply total_weaken; [apply total_main_generated |]. intros s [Hs Hgen].
  assert (Forall (λ r, in_window (Timestamp r)) (merged_logs s)) as Hm.
  { pose proof (merged_columns _ _ _ (script_merged_matched Hs)) as E.
    rewrite <-E in Hgen. apply Forall_fmap in Hgen.
    eapply Forall_impl; [exact Hgen |]. by intros r [Hr _]. }
  assert (Forall (λ r, in_window (Timestamp r)) (injected_logs s)) as Hi.
  { eapply injection_Forall; [| apply (ok_injection _ _ _ _ Hs) | exact Hm].
    intros ty r r'. apply anomaly_post_window. }
  rewrite (ok_labels _ _ _ _ Hs), label_violations_map.
  apply Forall_fmap. eapply Forall_impl; [exact Hi |].
  intros r Hr. simpl. split; [exact Hr |]. split; [by apply in_window_date |].
  split; [apply Z.mod_pos_bound; lia | apply ts_minute_bound].
Qed.

(** ** Selecting fewer or more rows than the table has *)

(** X9.  For any table and any anomaly count, the selection returns
    pairwise distinct labels of the table, as many as the smaller of the
    count and the number of rows: none for an empty table or a zero count,
    and every label exactly once when the count reaches the number of
    rows. *)
Theorem selection_is_bounded (n : nat) (df : list row) :
  total (select_anomaly_indices n df) (λ indices,
    length indices = (n `min` length df)%nat
    ∧ NoDup indices
    ∧ Forall (λ i, (i < length df)%nat) indices
    ∧ ((length df ≤ n)%nat → indices ≡ₚ seq 0 (length df))).
Proof.
  eapply total_weaken; [apply total_select_anomaly_indices |].
  intros indices Hsel.
  split; [by eapply selection_length |]. split; [by eapply selection_NoDup |].
  split; [by eapply selection_bound |].
  destruct Hsel as (p & Hp & ->). intros Hle.
  rewrite take_ge; [exact Hp |]. rewrite Hp, length_seq. exact Hle.
Qed.

(** ** The violation count *)

Lemma labels_of_label_row df :
  omap Policy_Violation (map label_row df)
  = map (λ r, if violation r then 1 else 0) df.
Proof.
  induction df as [| r df IH]; [done |].
  change (omap Policy_Violation (map label_row (r :: df)))
    with ((if violation r then 1 else 0) :: omap Policy_Violation (map label_row df)).
  by rewrite IH.
Qed.

Lemma sum_list_marks df :
  sum_list (map (λ r : row, if violation r then 1 else 0) df)
  = Z.of_nat (length (filter (λ r, violation r = true) df)).
Proof.
  induction df as [| r df IH]; [done |].
  rewrite filter_cons. simpl. rewrite IH.
  destruct (violation r); [rewrite decide_True by done | rewrite decide_False by done];
    simpl; lia.
Qed.

(** X10.  For any table, the sum of the label column after labelling is
    the number of rows on which the three checks set the flag; it lies
    between 0 and the number of rows. *)
Theorem violation_sum_counts (df : list row) :
  violation_sum (label_violations df)
  = Z.of_nat (length (filter (λ r, violation r = true) df))
  ∧ 0 ≤ violation_sum (label_violations df) ≤ Z.of_nat (length df).
Proof.
  unfold violation_sum.
  rewrite label_violations_map, labels_of_label_row, sum_list_marks.
  split; [done |]. pose proof (length_filter (λ r, violation r = true) df). lia.
Qed.

Lemma sum_list_insert (vals : list Z) : ∀ i v w,
  vals !! i = Some v → sum_list (<[i:=w]> vals) = sum_list vals - v + w.
Proof.
  induction vals as [| x vals IH]; intros [| i] v w Hi; simplify_eq/=; [lia |].
  rewrite (IH i v w Hi). lia.
Qed.

Lemma sum_list_ge_marked (indices : list nat) : ∀ vals : list Z,
  NoDup indices → Forall (λ v, 0 ≤ v) vals →
  (∀ i, i ∈ indices → vals !! i = Some 1) →
  Z.of_nat (length indices) ≤ sum_list vals.
Proof.
  induction indices as [| i indices IH]; intros vals Hnd Hpos Hone.
  - simpl. clear Hone. induction Hpos; simpl; lia.
  - apply NoDup_cons in Hnd as [Hi Hnd].
    assert (vals !! i = Some 1) as Hvi by (apply Hone; left).
    pose proof (sum_list_insert vals i 1 0 Hvi) as Hsum.
    assert (Z.of_nat (length indices) ≤ sum_list (<[i:=0]> vals)) as Hle.
    { apply IH; [done | |].
      - apply Forall_insert; [done | lia].
      - intros j Hj. rewrite list_lookup_insert_ne; [apply Hone; by right |].
        intros ->. done. }
    rewrite length_cons. lia.
Qed.

(** X11.  The script returns, and if its asset table has at least one
    asset that is PHI and Plain, every one of the 2500 selected rows is
    labelled 1 in the final table, so the violation count is at least
    2500. *)
Theorem selected_rows_labelled_when_targets_exist :
  total main (λ s,
    plain_phi_assets (df_metadata s) ≠ [] →
    (∀ idx, idx ∈ anomaly_indices s →
       ∃ r, df_access_logs s !! idx = Some r ∧ Policy_Violation r = Some 1)
    ∧ 2500 ≤ violation_sum (df_access_logs s)).
Proof.
  eapply total_weaken; [apply total_main |]. intros s Hs Htargets.
  destruct (ok_injection _ _ _ _ Hs) as (_ & _ & Hsel).
  assert (∀ idx, idx ∈ anomaly_indices s →
            ∃ r, injected_logs s !! idx = Some r ∧ violation r = true) as Hv.
  { intros idx Hidx. destruct (Hsel idx Hidx) as (r & r' & ty & _ & Hr' & Hmut).
    exists r'. split; [exact Hr' |].
    apply mutated_by_post, anomaly_post_violation in Hmut.
    by destruct Hmut as [Hv | (_ & Hnil & _)]. }
  rewrite (ok_labels _ _ _ _ Hs), label_violations_map. split.
  - intros idx Hidx. destruct (Hv idx Hidx) as (r & Hr & Hvr).
    exists (label_row r). rewrite list_lookup_fmap, Hr. split; [done |].
    simpl. by rewrite Hvr.
  - unfold violation_sum. rewrite labels_of_label_row.
    pose proof (script_indices_length Hs) as Hlen.
    pose proof (sum_list_ge_marked (anomaly_indices s)
                  (map (λ r, if violation r then 1 else 0) (injected_logs s))) as Hsum.
    unfold n_anomalies, n_logs in Hlen.
    etrans; [| apply Hsum].
    + lia.
    + eapply selection_NoDup, (ok_selection _ _ _ _ Hs).
    + apply Forall_fmap, Forall_forall. intros r _. simpl. by destruct (violation r).
    + intros idx Hidx. destruct (Hv idx Hidx) as (r & Hr & Hvr).
      rewrite list_lookup_fmap, Hr. simpl. by rewrite Hvr.
Qed.

(** ** An empty asset table *)




(** ** Other table sizes *)

(** X13.  With the four sizes replaced by any positive numbers, the user
    count below 2^63 so that the bound of its draw fits int64, the script
    still returns from every generator state, never raising: it yields
    that many assets and log rows, selects the smaller of the anomaly count
    and the row count, and labels every row 0 or 1. *)
Theorem script_returns_for_positive_sizes (na nl : nat) (nu : Z) (nk : nat) :
  (0 < na)%nat → (0 < nl)%nat → 0 < nu < 9223372036854775808 → (0 < nk)%nat →
  total (run na nl nu nk) (λ s,
    length (df_metadata s) = na
    ∧ length (df_access_logs s) = nl
    ∧ length (anomaly_indices s) = (nk `min` nl)%nat
    ∧ Forall (λ r, Policy_Violation r = Some 0 ∨ Policy_Violation r = Some 1)
             (df_access_logs s)).
Proof.
  intros Hna Hnl Hnu Hnk. eapply total_weaken; [by apply total_run |].
  intros s Hs. split; [apply (ok_meta_length _ _ _ _ Hs) |].
  rewrite (ok_labels _ _ _ _ Hs), label_violations_map.
  split; [rewrite length_map; apply (script_injected_length Hs) |].
  split; [apply (script_indices_length Hs) |].
  apply Forall_fmap, Forall_forall. intros r _. simpl.
  destruct (violation r); auto.
Qed.

Lemma script_returns_for_positive_sizes_witness :
  total (run 3 5 2 7) (λ s,
    length (df_metadata s) = 3%nat
    ∧ length (df_access_logs s) = 5%nat
    ∧ length (anomaly_indices s) = (7 `min` 5)%nat
    ∧ Forall (λ r, Policy_Violation r = Some 0 ∨ Policy_Violation r = Some 1)
             (df_access_logs s)).
Proof. apply (script_returns_for_positive_sizes 3 5 2 7); lia. Defined.
